(** * Column helpers of [pandas.py]: a shallow embedding and its properties

    The module is a set of leaf functions over pandas tables.  Tables are
    embedded as records of a row index and an ordered sequence of named,
    typed columns; the pandas operations the functions delegate to
    ([DataFrame.drop], [__getitem__], [factorize], [sample], [Index.union],
    [loc], ...) are embedded next to them, following the behaviour pandas
    documents.  Python objects whose identity matters live in a store, and
    calls that may raise return a [result]. *)

From Stdlib Require Import ZArith List String Lia Bool.
From Stdlib Require Import Floats.SpecFloat.
From stdpp Require Import gmap strings list sorting pretty.

Open Scope Z_scope.
Open Scope string_scope.
Open Scope list_scope.

(** ** Data model *)

(** Storage types of a column ([numpy.dtype]). *)
Inductive dtype :=
| DObject | DFloat32 | DFloat64 | DInt64 | DInt32.

(** One entry of a column: missing ([NaN] / [None]), an integer, a float
    or a text. *)
Inductive cell :=
| NA
| VInt (z : Z)
| VFloat (f : spec_float)
| VStr (s : string).

Global Instance spec_float_eq_dec : EqDecision spec_float.
Proof. solve_decision. Defined.

Global Instance dtype_eq_dec : EqDecision dtype.
Proof. solve_decision. Defined.

Global Instance cell_eq_dec : EqDecision cell.
Proof. solve_decision. Defined.

Record Series := mkSeries {
  name : string;
  s_dtype : dtype;
  values : list cell
}.

(** A table: the row labels and the columns, in order.  The table is
    rectangular when every column has one entry per row label. *)
Record DataFrame := mkFrame {
  index : list Z;
  columns : list Series
}.

Definition labels (df : DataFrame) : list string := map name (columns df).

Definition shape (df : DataFrame) : nat * nat :=
  (length (index df), length (columns df)).

(** Rectangular table with distinct column names and distinct row labels. *)
Definition rectangular (df : DataFrame) : Prop :=
  Forall (fun c => length (values c) = length (index df)) (columns df).

Definition wf_frame (df : DataFrame) : Prop :=
  rectangular df /\ NoDup (labels df) /\ NoDup (index df).

(** ** Exceptions and results *)

Inductive exn :=
| KeyError
| AttributeError
| ValueError (msg : string)
| ZeroDivisionError
| OverflowError
| DanglingReference. (* a reference outside the store: not reachable from Python *)

Inductive result (A : Type) :=
| Ok (a : A)
| Raise (e : exn).
Arguments Ok {A} a.
Arguments Raise {A} e.

Global Instance result_ret : MRet result := fun A a => Ok a.
Global Instance result_bind : MBind result := fun A B k r =>
  match r with
  | Ok a => k a
  | Raise e => Raise e
  end.

(** ** pandas operations on table values *)

Definition has_label (df : DataFrame) (c : string) : bool :=
  bool_decide (c ∈ labels df).

(** [df.drop(columns=cols)]: every requested label must exist; every column
    carrying a requested label goes. *)
Definition drop_cols (df : DataFrame) (cols : list string) : result DataFrame :=
  if forallb (has_label df) cols
  then Ok (mkFrame (index df)
             (filter (fun c => name c ∉ cols) (columns df)))
  else Raise KeyError.

(** ** The object store *)

Definition loc := nat.

(** A Python value as far as [drop_columns] sees it. *)
Inductive pyval :=
| PNone
| PRef (l : loc).

Record world := mkWorld {
  heap : list DataFrame;   (* live table objects, by address *)
  log : list string        (* records sent to [LOG.info] *)
}.

(** Computations that mutate a state and may raise; the state reached when
    an exception leaves the function is kept. *)
Definition ST (S A : Type) : Type := S -> S * result A.

Global Instance ST_ret {S} : MRet (ST S) := fun A a w => (w, Ok a).
Global Instance ST_bind {S} : MBind (ST S) := fun A B k m w =>
  match m w with
  | (w', Ok a) => k a w'
  | (w', Raise e) => (w', Raise e)
  end.

Definition M : Type -> Type := ST world.

(** [v.shape]: [None] has no such attribute. *)
Definition get_shape (v : pyval) : M (nat * nat) :=
  fun w => match v with
           | PNone => (w, Raise AttributeError)
           | PRef l => match heap w !! l with
                       | Some df => (w, Ok (shape df))
                       | None => (w, Raise DanglingReference)
                       end
           end.

(** [df.drop(columns=cols, inplace=inplace)] on an object: in place, the
    object is overwritten and the call evaluates to [None]; otherwise the
    object is left alone and a new object is returned. *)
Definition DataFrame_drop (v : pyval) (cols : list string) (inplace : bool)
  : M pyval :=
  fun w => match v with
           | PNone => (w, Raise AttributeError)
           | PRef l =>
             match heap w !! l with
             | None => (w, Raise DanglingReference)
             | Some df =>
               match drop_cols df cols with
               | Raise e => (w, Raise e)
               | Ok df' =>
                 if inplace
                 then (mkWorld (<[l := df']> (heap w)) (log w), Ok PNone)
                 else (mkWorld (heap w ++ [df']) (log w),
                       Ok (PRef (length (heap w))))
               end
             end
           end.

Definition LOG_info (msg : string) : M unit :=
  fun w => (mkWorld (heap w) (log w ++ [msg]), Ok tt).

Definition drop_message (ncol ndrop : nat) : string :=
  "Dataframe has " ++ pretty ncol ++ " column after dropping "
    ++ pretty ndrop ++ " columns.".

(** ** [drop_columns] *)

Definition drop_columns (df : pyval) (cols : list string) (inplace : bool)
  : M pyval :=
  '(nrow, ncol) ← get_shape df;
  if Nat.eqb ncol 0 then mret df
  else
    res ← DataFrame_drop df cols inplace;
    '(nrow, ncol) ← get_shape res;
    LOG_info (drop_message ncol (length cols));;
    mret (if inplace then df else res).

(** ** Floating point ([float], [numpy.float64], [numpy.float32])

    IEEE 754 binary floats are the [spec_float] of the standard library,
    at precision 53 and maximal exponent 1024 for [float64]. *)

Definition prec64 : Z := 53.
Definition emax64 : Z := 1024.

(** [float(z)]: the nearest float, ties to even. *)
Definition float_of_int (z : Z) : spec_float :=
  binary_normalize prec64 emax64 z 0 false.

Definition float32_of_int (z : Z) : spec_float :=
  binary_normalize 24 128 z 0 false.

Definition fzero : spec_float := S754_zero false.
Definition fone : spec_float := float_of_int 1.
(** The literals [.5] and [.1]. *)
Definition fhalf : spec_float := S754_finite false 4503599627370496 (-53).
Definition ftenth : spec_float := S754_finite false 7205759403792794 (-56).

Definition fmul := SFmul prec64 emax64.
Definition fsub := SFsub prec64 emax64.
(** numpy division: a zero divisor gives an infinity or [nan]. *)
Definition fdiv := SFdiv prec64 emax64.

(** Python's [/] on floats raises on a zero divisor. *)
Definition py_truediv (x y : spec_float) : result spec_float :=
  if SFeqb y fzero then Raise ZeroDivisionError else Ok (fdiv x y).

(** The integer nearest to m * 2^e, ties to even. *)
Definition round_half_even (m e : Z) : Z :=
  match e with
  | Zneg p =>
    let d := 2 ^ Zpos p in
    let q := m / d in
    match (2 * (m mod d)) ?= d with
    | Lt => q
    | Gt => q + 1
    | Eq => if Z.even q then q else q + 1
    end
  | _ => m * 2 ^ e
  end.

(** Python's [round(x)] on a float. *)
Definition py_round (x : spec_float) : result Z :=
  match x with
  | S754_nan => Raise (ValueError "cannot convert float NaN to integer")
  | S754_infinity _ => Raise OverflowError
  | S754_zero _ => Ok 0
  | S754_finite s m e =>
    Ok (cond_Zopp s (round_half_even (Zpos m) e))
  end.

(** The integer a float denotes, when it denotes one. *)
Definition float_to_int (x : spec_float) : option Z :=
  match x with
  | S754_zero _ => Some 0
  | S754_finite s m e =>
    match e with
    | Zneg p =>
      if Z.eqb (Zpos m mod 2 ^ Zpos p) 0
      then Some (cond_Zopp s (Zpos m / 2 ^ Zpos p)) else None
    | _ => Some (cond_Zopp s (Zpos m * 2 ^ e))
    end
  | _ => None
  end.

(** ** Values of a column *)

Definition is_na (v : cell) : bool :=
  match v with
  | NA | VFloat S754_nan => true
  | _ => false
  end.

(** Python equality of entries, as a normal form: a float that denotes an
    integer equals that integer, both zeros are equal, and missing entries
    share one key. *)
Definition cell_key (v : cell) : cell :=
  match v with
  | VFloat S754_nan => NA
  | VFloat f => match float_to_int f with
                | Some z => VInt z
                | None => v
                end
  | _ => v
  end.

(** [v == w] entry by entry: a missing entry equals nothing. *)
Definition cell_eqb (v w : cell) : bool :=
  negb (is_na v) && bool_decide (cell_key v = cell_key w).

(** Position of a value in a sequence of distinct values. *)
Definition index_of (u : list cell) (v : cell) : option nat :=
  fst <$> list_find (fun w => cell_key w = cell_key v) u.

(** [pd.factorize]: codes by order of first appearance, [-1] for a missing
    entry, and the distinct values met, in that order. *)
Fixpoint factorize_from (uniques : list cell) (vs : list cell)
  : list Z * list cell :=
  match vs with
  | [] => ([], uniques)
  | v :: vs' =>
    if is_na v then
      let '(codes, u) := factorize_from uniques vs' in (-1 :: codes, u)
    else
      match index_of uniques v with
      | Some i =>
        let '(codes, u) := factorize_from uniques vs' in
        (Z.of_nat i :: codes, u)
      | None =>
        let '(codes, u) := factorize_from (uniques ++ [v]) vs' in
        (Z.of_nat (length uniques) :: codes, u)
      end
  end.

Definition factorize (vs : list cell) : list Z * list cell :=
  factorize_from [] vs.

(** [Series.unique()]: distinct entries by first appearance; a missing
    entry is listed once. *)
Fixpoint unique_from (seen : list cell) (vs : list cell) : list cell :=
  match vs with
  | [] => []
  | v :: vs' =>
    if bool_decide (cell_key v ∈ seen) then unique_from seen vs'
    else v :: unique_from (cell_key v :: seen) vs'
  end.

Definition unique (vs : list cell) : list cell := unique_from [] vs.

(** [Series.nunique()], [Series.count()] and [Series.isna().sum()]. *)
Definition nunique (vs : list cell) : nat :=
  length (filter (fun v => is_na v = false) (unique vs)).
Definition count (vs : list cell) : nat :=
  length (filter (fun v => is_na v = false) vs).
Definition isna_sum (vs : list cell) : nat :=
  length (filter (fun v => is_na v = true) vs).

(** Two's complement wrap-around of a cast to a [bits]-bit integer. *)
Definition wrap (bits : Z) (z : Z) : Z :=
  (z + 2 ^ (bits - 1)) mod 2 ^ bits - 2 ^ (bits - 1).

(** [Series.astype(d)] on one entry.  The module casts integer code
    columns only; other entries are left as they are. *)
Definition astype (d : dtype) (v : cell) : cell :=
  match v with
  | VInt z =>
    match d with
    | DObject => VInt z
    | DInt64 => VInt (wrap 64 z)
    | DInt32 => VInt (wrap 32 z)
    | DFloat64 => VFloat (float_of_int z)
    | DFloat32 => VFloat (float32_of_int z)
    end
  | _ => v
  end.

(** ** Selecting columns and rows *)

(** Lists searched and overwritten by a key: the columns of a table by
    name, the entries of a [dict] by key. *)
Definition find_key {A K} `{EqDecision K} (key : A -> K) (k : K)
    (l : list A) : option A :=
  snd <$> list_find (fun y => key y = k) l.

Definition replace_key {A K} `{EqDecision K} (key : A -> K) (k : K) (x : A)
    (l : list A) : list A :=
  map (fun y => if decide (key y = k) then x else y) l.

(** [df[c]] for one label. *)
Definition getitem (df : DataFrame) (c : string) : result Series :=
  match find_key name c (columns df) with
  | Some s => Ok s
  | None => Raise KeyError
  end.

(** [df[cols]] for a list of labels: the requested columns, in the order
    requested. *)
Definition getitem_list (df : DataFrame) (cols : list string)
  : result DataFrame :=
  if forallb (has_label df) cols
  then Ok (mkFrame (index df)
             (c ← cols; filter (fun s => name s = c) (columns df)))
  else Raise KeyError.

(** [df[c] = vs]: overwrite the column of that label where it stands, or
    append a new column. *)
Definition setitem (df : DataFrame) (c : string) (d : dtype) (vs : list cell)
  : DataFrame :=
  if has_label df c
  then mkFrame (index df)
         (replace_key name c (mkSeries c d vs) (columns df))
  else mkFrame (index df) (columns df ++ [mkSeries c d vs]).

Definition pick {A} (pos : list nat) (l : list A) : list A :=
  omap (fun i => l !! i) pos.

(** [df.take(pos)]: the rows at the given positions, in that order. *)
Definition take_rows (df : DataFrame) (pos : list nat) : DataFrame :=
  mkFrame (pick pos (index df))
    (map (fun s => mkSeries (name s) (s_dtype s) (pick pos (values s)))
         (columns df)).

Fixpoint where_from (i : nat) (mask : list bool) : list nat :=
  match mask with
  | [] => []
  | b :: mask' => (if b then [i] else []) ++ where_from (S i) mask'
  end.

(** [df[mask]] for a boolean mask. *)
Definition getitem_mask (df : DataFrame) (mask : list bool) : DataFrame :=
  take_rows df (where_from 0 mask).

(** [df[df[target] == v]] *)
Definition rows_equal (df : DataFrame) (target : string) (v : cell)
  : result DataFrame :=
  s ← getitem df target;
  mret (getitem_mask df (map (fun x => cell_eqb x v) (values s))).

(** [Index.union] of row labels: an empty or equal argument gives the
    receiver back as it is, otherwise the distinct labels, sorted. *)
Definition Index_union (a b : list Z) : list Z :=
  if bool_decide (b = [] ∨ a = b) then a
  else if bool_decide (a = []) then b
  else merge_sort Z.le (remove_dups (a ++ b)).

Definition sort_values (a : list Z) : list Z := merge_sort Z.le a.

Definition positions_of (df : DataFrame) (lbl : Z) : list nat :=
  where_from 0 (map (fun l => bool_decide (l = lbl)) (index df)).

(** [df.loc[lbls]]: for each label in turn, the rows carrying it. *)
Definition loc_list (df : DataFrame) (lbls : list Z) : result DataFrame :=
  if forallb (fun l => bool_decide (l ∈ index df)) lbls
  then Ok (take_rows df (l ← lbls; positions_of df l))
  else Raise KeyError.

(** ** Random sampling

    The random state is a stream of raw draws.  [choice] without
    replacement takes one of the remaining positions per draw. *)
Definition random_state := list nat.

Fixpoint draw (rs : random_state) (pool : list nat) (n : nat) : list nat :=
  match n, pool with
  | S n', p :: _ =>
    let i := (hd 0 rs mod length pool)%nat in
    default p (pool !! i) :: draw (tl rs) (delete i pool) n'
  | _, _ => []
  end.

(** [random_state.choice(pop, size=size, replace=False)] *)
Definition choice (rs : random_state) (pop : nat) (size : Z)
  : result (list nat) :=
  if (size <? 0)%Z
  then Raise (ValueError "negative dimensions are not allowed")
  else if (Z.of_nat pop <? size)%Z
  then Raise (ValueError
    "Cannot take a larger sample than population when 'replace=False'")
  else Ok (draw rs (seq 0 pop) (Z.to_nat size)).

(** [df.sample(n)] *)
Definition sample_n (rs : random_state) (df : DataFrame) (n : Z)
  : result DataFrame :=
  if (n <? 0)%Z
  then Raise (ValueError
    "A negative number of rows requested. Please provide `n` >= 0.")
  else
    pos ← choice rs (length (index df)) n;
    mret (take_rows df pos).

(** The error of [sample] for a fraction above 1 without replacement. *)
Definition upsample_error : exn :=
  ValueError
    "Replace has to be set to `True` when upsampling the population `frac` > 1.".

(** [df.sample(frac=frac)]: refused above 1 and below 0, else
    [round(frac * len(df))] rows. *)
Definition sample_frac (rs : random_state) (df : DataFrame)
    (frac : spec_float) : result DataFrame :=
  if SFltb fone frac then Raise upsample_error
  else if SFltb frac fzero
  then Raise (ValueError "A negative number for `frac` cannot be sampled.")
  else
    size ← py_round (fmul frac (float_of_int (Z.of_nat (length (index df)))));
    pos ← choice rs (length (index df)) size;
    mret (take_rows df pos).

(** ** [column_cut] *)

Definition column_cut (frame : DataFrame) (cols : list string)
  : result (DataFrame * DataFrame) :=
  df1 ← getitem_list frame cols;
  df2 ← drop_cols frame cols;
  mret (df1, df2).

(** ** [common_columns] *)

Definition enumerate {A} (l : list A) : list (nat * A) :=
  zip (seq 0 (length l)) l.

(** [itertools.combinations(l, 2)] *)
Fixpoint combinations2 {A} (l : list A) : list (A * A) :=
  match l with
  | [] => []
  | x :: l' => map (pair x) l' ++ combinations2 l'
  end.

(** The generator, as the sequence of the elements it yields. *)
Definition common_columns (dataframes : list DataFrame)
  : list ((nat * nat) * gset string) :=
  map (fun '((i1, df1), (i2, df2)) =>
         ((i1, i2),
          (list_to_set (labels df1) : gset string)
            ∩ list_to_set (labels df2)))
      (combinations2 (enumerate dataframes)).

(** ** [categorize] *)

(** A [dict] from column names to decode sequences, in insertion order. *)
Abbreviation dict := (list (string * list cell)).

Definition dict_get (d : dict) (k : string) : option (list cell) :=
  snd <$> find_key fst k d.

Definition dict_set (d : dict) (k : string) (v : list cell) : dict :=
  if bool_decide (k ∈ map fst d)
  then replace_key fst k (k, v) d
  else d ++ [(k, v)].

(** [frame[c]] inside a function that mutates [frame]. *)
Definition read_column (c : string) : ST DataFrame Series :=
  fun frame => (frame, getitem frame c).

Definition write_column (c : string) (d : dtype) (vs : list cell)
  : ST DataFrame unit :=
  fun frame => (setitem frame c d vs, Ok tt).

Fixpoint categorize_loop (uniques : dict) (cols : list string)
    (dt : option dtype) : ST DataFrame dict :=
  match cols with
  | [] => mret uniques
  | c :: cols' =>
    s ← read_column c;
    let '(codes, u) := factorize (values s) in
    write_column c DInt64 (map VInt codes);;
    match dt with
    | Some d =>
      s' ← read_column c;
      write_column c d (map (astype d) (values s'))
    | None => mret tt
    end;;
    categorize_loop (dict_set uniques c u) cols' dt
  end.

Definition categorize (frame : DataFrame) (cols : list string)
    (dt : option dtype) : DataFrame * result dict :=
  categorize_loop [] cols dt frame.

(** ** [negative_down_sample] *)

Definition len (df : DataFrame) : Z := Z.of_nat (length (index df)).

Definition negative_down_sample (data : DataFrame) (target : string)
    (pos neg : cell) (rs : random_state) : result DataFrame :=
  pos_data ← rows_equal data target pos;
  pos_ratio ← py_truediv (float_of_int (len pos_data)) (float_of_int (len data));
  frac ← py_truediv pos_ratio (fsub fone pos_ratio);
  neg_rows ← rows_equal data target neg;
  neg_data ← sample_frac rs neg_rows frac;
  let idx := sort_values (Index_union (index pos_data) (index neg_data)) in
  loc_list data idx.

(** ** [frame_info] *)

Definition palette_dtypes (d : dtype) : option string :=
  match d with
  | DObject => Some "#fd7272"
  | DFloat32 => Some "#00b894"
  | DFloat64 => Some "#60a3bc"
  | DInt64 => Some "#ff9f1a"
  | DInt32 => Some "#fed330"
  end.

(** One row of the summary: the entries under [dtype], [samples],
    [frac_nan], [num_nan], [num_notnan], [frac_unique], [num_unique]. *)
Record info := mkInfo {
  i_dtype : dtype;
  samples : list cell;
  frac_nan : spec_float;
  num_nan : nat;
  num_notnan : nat;
  frac_unique : spec_float;
  num_unique : nat
}.

(** The summary table: its row labels are the column names of the input. *)
Abbreviation summary := (list (string * info)).

(** A series indexed by the column names of a table. *)
Definition by_column {A} (f : Series -> A) (df : DataFrame)
  : list (string * A) :=
  map (fun s => (name s, f s)) (columns df).

(** [a / n] for a series of counts and a number. *)
Definition series_div_scalar (a : list (string * nat)) (n : nat)
  : list (string * spec_float) :=
  map (fun kv => (fst kv,
         fdiv (float_of_int (Z.of_nat (snd kv))) (float_of_int (Z.of_nat n)))) a.

(** [a / b] for two series of counts over the same labels. *)
Definition series_div (a b : list (string * nat))
  : list (string * spec_float) :=
  zip_with (fun x y => (fst x,
              fdiv (float_of_int (Z.of_nat (snd x)))
                   (float_of_int (Z.of_nat (snd y))))) a b.

(** [l[:n]] *)
Definition slice_to {A} (n : Z) (l : list A) : list A :=
  if (0 <=? n)%Z then take (Z.to_nat n) l
  else take (Z.to_nat (Z.of_nat (length l) + n)) l.

(** [Series.max()]: the largest entry that is not [nan]. *)
Definition series_max (a : list (string * spec_float)) : spec_float :=
  foldl (fun acc kv =>
           match acc, snd kv with
           | _, S754_nan => acc
           | S754_nan, x => x
           | _, x => if SFltb acc x then x else acc
           end) S754_nan a.

(** [pd.DataFrame(odict(...))] over seven series with the same labels. *)
Fixpoint build_summary (dts : list (string * dtype))
    (smp : list (string * list cell))
    (fn : list (string * spec_float)) (nn nnn : list (string * nat))
    (fu : list (string * spec_float)) (nu : list (string * nat)) : summary :=
  match dts, smp, fn, nn, nnn, fu, nu with
  | (l, d) :: dts', (_, s) :: smp', (_, a) :: fn', (_, b) :: nn',
    (_, c) :: nnn', (_, e) :: fu', (_, g) :: nu' =>
    (l, mkInfo d s a b c e g) :: build_summary dts' smp' fn' nn' nnn' fu' nu'
  | _, _, _, _, _, _, _ => []
  end.

Record Styler := mkStyler {
  data : summary;
  bars : list (string * string * spec_float);  (* column, colour, width *)
  cell_css : list (string * string * string)   (* row, column, style *)
}.

Inductive frame_info_result :=
| Raw (res : summary)
| Styled (st : Styler).

Definition bg_dtype (val : dtype) : string :=
  "background-color: " ++ default "#9b59b6" (palette_dtypes val).
Definition fg_frac_nan (val : spec_float) : string :=
  "color: " ++ (if SFltb fhalf val then "red" else "black").
Definition fg_frac_unique (val : spec_float) : string :=
  "color: " ++ (if SFltb val ftenth then "red" else "black").

Definition shape_line (df : DataFrame) : string :=
  "shape = (" ++ pretty (fst (shape df)) ++ ", "
    ++ pretty (snd (shape df)) ++ ")".

(** The call returns what it printed and its result. *)
Definition frame_info (frame : DataFrame) (n_samples : Z) (styling : bool)
    (before_styling : summary -> summary) (rs : random_state)
  : result (list string * frame_info_result) :=
  let '(nrow, ncol) := shape frame in
  let s_num_nan := by_column (fun s => isna_sum (values s)) frame in
  let s_num_notnan := by_column (fun s => count (values s)) frame in
  let s_frac_nan := series_div_scalar s_num_nan nrow in
  let s_num_unique := by_column (fun s => nunique (values s)) frame in
  let s_frac_unique := series_div s_num_unique s_num_notnan in
  let max10k := Z.min 10000 (Z.of_nat nrow / 10) in
  let n_samples := Z.min 1000 (Z.min max10k n_samples) in
  sampled ← sample_n rs frame max10k;
  let res :=
    build_summary
      (by_column s_dtype frame)
      (by_column (fun x => slice_to n_samples (unique (values x))) sampled)
      s_frac_nan s_num_nan s_num_notnan s_frac_unique s_num_unique in
  let out := [shape_line frame] in
  if negb styling then mret (out, Raw res)
  else
    let res := before_styling res in
    mret (out, Styled (mkStyler res
      [("frac_nan", "#8395a7",
        fmul (float_of_int 100) (series_max s_frac_nan));
       ("frac_unique", "#cad3c8",
        fmul (float_of_int 100) (series_max s_frac_unique))]
      (map (fun r => (fst r, "dtype", bg_dtype (i_dtype (snd r)))) res
       ++ map (fun r => (fst r, "frac_nan", fg_frac_nan (frac_nan (snd r)))) res
       ++ map (fun r => (fst r, "frac_unique",
                         fg_frac_unique (frac_unique (snd r)))) res))).


(** ** [qqplot]

    The fit is computed by scipy and the figure laid out by matplotlib.
    The two library calls whose result decides what [qqplot] does next,
    [scipy.stats.probplot] and [plt.subplots], are parameters of the
    model; the model records the plots drawn and how the call ends. *)

(** What [probplot] returns: the points, and slope, intercept and
    correlation of the fitted line. *)
Record Fit := mkFit {
  fit_x : list spec_float;
  fit_y : list spec_float;
  fit_m : spec_float;
  fit_b : spec_float;
  fit_r : spec_float
}.

(** An [Axes] object, named by its slot (row, column) in its figure. *)
Definition Axes : Type := (nat * nat)%type.

(** What [plt.subplots] hands back: a lone [Axes], a 1D array of them or
    a 2D array of them. *)
Inductive ax_array :=
| AxOne (a : Axes)
| AxRow (row : list Axes)
| AxGrid (rows : list (list Axes)).

(** An element of such an array: an [Axes], or a row of a 2D array. *)
Inductive ax_item :=
| Item (a : Axes)
| SubArray (row : list Axes).

Inductive type_error :=
| UnknownObject (repr : string)
| NotSubscriptable.

Inductive plot_exn :=
| TypeError (why : type_error)
| IndexError
| Other (e : exn).

(** One plot: the points and the fitted line of [fit] drawn on [axes],
    the points in [color], under the title [title]. *)
Record drawing := mkDrawing {
  d_axes : Axes;
  d_fit : Fit;
  d_color : string;
  d_title : string
}.

(** How a call ends.  [Hangs]: the call never returns. *)
Inductive outcome :=
| Returns
| Raises (e : plot_exn)
| Hangs.

(** The argument of [qqplot]: a table, a column, or anything else, given
    by its [str]. *)
Inductive py_object :=
| PyFrame (df : DataFrame)
| PySeries (s : Series)
| PyOther (repr : string).

Definition dropna (vs : list cell) : list cell :=
  filter (fun v => is_na v = false) vs.

(** [data.select_dtypes(exclude="object")] *)
Definition select_dtypes_exclude_object (df : DataFrame) : DataFrame :=
  mkFrame (index df) (filter (fun s => s_dtype s <> DObject) (columns df)).

(** [ax[i]] *)
Definition subscript (ax : ax_array) (i : nat) : plot_exn + ax_item :=
  match ax with
  | AxOne _ => inl (TypeError NotSubscriptable)
  | AxRow row =>
    match row !! i with
    | Some a => inr (Item a)
    | None => inl IndexError
    end
  | AxGrid rows =>
    match rows !! i with
    | Some row => inr (SubArray row)
    | None => inl IndexError
    end
  end.

(** [x[i]] for an element [x] of an array of axes. *)
Definition subscript_item (x : ax_item) (i : nat) : plot_exn + ax_item :=
  match x with
  | Item _ => inl (TypeError NotSubscriptable)
  | SubArray row =>
    match row !! i with
    | Some a => inr (Item a)
    | None => inl IndexError
    end
  end.

(** [ax[r][c] if fig_nrow > 1 else ax[c]] *)
Definition axes_at (ax : ax_array) (nrow : Z) (r c : nat)
  : plot_exn + ax_item :=
  if (1 <? nrow)%Z
  then match subscript ax r with
       | inl e => inl e
       | inr x => subscript_item x c
       end
  else subscript ax c.

(** The literal [3.6]. *)
Definition f3_6 : spec_float := S754_finite false 8106479329266893 (-51).

Definition fig_ncol (ncol : Z) : Z := Z.min 5 ncol.

(** numpy's integer [%] and [//] give 0 for a zero divisor, as [mod] and
    [/] on [Z] do. *)
Definition fig_nrow (ncol : Z) : Z :=
  Z.b2z (negb (ncol mod fig_ncol ncol =? 0)%Z) + ncol / fig_ncol ncol.

Definition fig_size (ncol : Z) : Z * spec_float :=
  (19, fmul f3_6 (float_of_int (fig_nrow ncol))).

(** The pair following [(p, q)] in
    [((p, q) for p in count(0) for q in range(fig_ncol))], for a positive
    [fig_ncol]. *)
Definition g_next (fig_ncol : Z) (pq : nat * nat) : nat * nat :=
  let '(p, q) := pq in
  if (Z.of_nat (S q) <? fig_ncol)%Z then (p, S q) else (S p, 0%nat).

(** [plt.subplot()]: the axes of the current figure. *)
Definition plt_subplot : Axes := (0%nat, 0%nat).

Section Plotting.

Variable probplot : list cell -> result Fit.
Variable subplots : Z -> Z -> Z * spec_float -> result ax_array.

Definition make_plot (series : Series) (axes : ax_item) (title : string)
  : plot_exn + drawing :=
  match probplot (dropna (values series)) with
  | Raise e => inl (Other e)
  | Ok fit =>
    let color := default "#9b59b6" (palette_dtypes (s_dtype series)) in
    match axes with
    | Item a => inr (mkDrawing a fit color title)
    | SubArray _ => inl (Other AttributeError)
    end
  end.

(** The loop of [plot_frame] over the columns left, [g] being the pair
    the generator yields next and [drawn] the plots made so far. *)
Fixpoint plot_columns (frame : DataFrame) (ax : ax_array) (nrow ncol : Z)
    (g : nat * nat) (cols : list string) (drawn : list drawing)
  : list drawing * outcome :=
  match cols with
  | [] => (drawn, Returns)
  | column :: rest =>
    let '(r, c) := g in
    match axes_at ax nrow r c with
    | inl e => (drawn, Raises e)
    | inr axes =>
      match getitem frame column with
      | Raise e => (drawn, Raises (Other e))
      | Ok series =>
        match make_plot series axes column with
        | inl e => (drawn, Raises e)
        | inr d =>
          plot_columns frame ax nrow ncol (g_next ncol g) rest (drawn ++ [d])
        end
      end
    end
  end.

(** With [fig_ncol = 0] the generator never yields, and [zip] asks it
    first. *)
Definition plot_frame (frame : DataFrame) : list drawing * outcome :=
  let ncol := Z.of_nat (snd (shape frame)) in
  match subplots (fig_nrow ncol) (fig_ncol ncol) (fig_size ncol) with
  | Raise e => ([], Raises (Other e))
  | Ok ax =>
    if (fig_ncol ncol =? 0)%Z then ([], Hangs)
    else plot_columns frame ax (fig_nrow ncol) (fig_ncol ncol)
           (0%nat, 0%nat) (labels frame) []
  end.

Definition plot_series (series : Series) : list drawing * outcome :=
  match make_plot series (Item plt_subplot) (name series) with
  | inl e => ([], Raises e)
  | inr d => ([d], Returns)
  end.

(** The closing [gc.collect()] leaves no trace in the model. *)
Definition qqplot (data : py_object) : list drawing * outcome :=
  match data with
  | PyFrame df => plot_frame (select_dtypes_exclude_object df)
  | PySeries s => plot_series s
  | PyOther repr => ([], Raises (TypeError (UnknownObject repr)))
  end.

End Plotting.

(** The array of a figure of [nrow] by [ncol] axes as [plt.subplots]
    returns it: a lone [Axes] for one slot, else a 1D array when there is
    one row or one column, else the 2D array. *)
Definition grid_axes (nrow ncol : nat) : list (list Axes) :=
  map (fun r => map (fun c => (r, c)) (seq 0 ncol)) (seq 0 nrow).

Definition squeeze (nrow ncol : nat) : ax_array :=
  match nrow, ncol with
  | 1%nat, 1%nat => AxOne (0%nat, 0%nat)
  | 1%nat, _ => AxRow (map (fun c => (0%nat, c)) (seq 0 ncol))
  | _, 1%nat => AxRow (map (fun r => (r, 0%nat)) (seq 0 nrow))
  | _, _ => AxGrid (grid_axes nrow ncol)
  end.

(** ** Notions used to state the properties *)

(** The summary table inside the value [frame_info] returns. *)
Definition summary_of (r : frame_info_result) : summary :=
  match r with
  | Raw res => res
  | Styled st => data st
  end.

(** What the summary row of a column says, for a table of [nrow] rows. *)
Definition describes (nrow : nat) (s : Series) (row : string * info) : Prop :=
  fst row = name s
  /\ i_dtype (snd row) = s_dtype s
  /\ num_nan (snd row) = isna_sum (values s)
  /\ num_notnan (snd row) = count (values s)
  /\ num_unique (snd row) = nunique (values s)
  /\ frac_nan (snd row)
     = fdiv (float_of_int (Z.of_nat (num_nan (snd row))))
            (float_of_int (Z.of_nat nrow))
  /\ frac_unique (snd row)
     = fdiv (float_of_int (Z.of_nat (num_unique (snd row))))
            (float_of_int (Z.of_nat (num_notnan (snd row)))).

(** Order of index pairs: by first index, then by second. *)
Definition pair_lt (p q : nat * nat) : Prop :=
  (fst p < fst q)%nat \/ (fst p = fst q /\ (snd p < snd q)%nat).

(** The integer an entry stores, if it stores one. *)
Definition cell_code (v : cell) : option Z :=
  match v with
  | VInt z => Some z
  | VFloat f => float_to_int f
  | _ => None
  end.

(** The entry [categorize] stores for a code. *)
Definition store (dt : option dtype) (code : Z) : cell :=
  match dt with
  | None => VInt code
  | Some d => astype d (VInt code)
  end.

(** Decoding: the [i]-th element of a decode sequence. *)
Definition decode (u : list cell) (i : Z) : option cell :=
  if (i <? 0)%Z then None else u !! Z.to_nat i.

(** Encoding: the position of a value in a decode sequence. *)
Definition encode (u : list cell) (v : cell) : option Z :=
  Z.of_nat <$> index_of u v.

(** The storage type keeps every code of a column of [n] entries. *)
Definition holds_codes (dt : option dtype) (n : nat) : Prop :=
  forall i : Z, (-1 <= i < Z.of_nat n)%Z -> cell_code (store dt i) = Some i.

(** The round-trip law on the codes of a column: all of them, or the
    non-negative ones. *)
Definition round_trip (col u : list cell) : Prop :=
  forall x i, x ∈ col -> cell_code x = Some i ->
    exists v, decode u i = Some v /\ encode u v = Some i.

Definition round_trip_nonneg (col u : list cell) : Prop :=
  forall x i, x ∈ col -> cell_code x = Some i -> (0 <= i)%Z ->
    exists v, decode u i = Some v /\ encode u v = Some i.

(** [codes] and [u] are the first-appearance coding of the entries [vs]. *)
Definition coding (vs : list cell) (codes : list Z) (u : list cell) : Prop :=
  length codes = length vs
  /\ NoDup (map cell_key u)
  /\ Forall (fun w => is_na w = false) u
  /\ (forall w, w ∈ u -> w ∈ vs)
  /\ (forall r v, vs !! r = Some v -> is_na v = true ->
       codes !! r = Some (-1)%Z)
  /\ (forall r v, vs !! r = Some v -> is_na v = false ->
       exists i w, codes !! r = Some (Z.of_nat i)
                   /\ u !! i = Some w /\ cell_key w = cell_key v)
  /\ (forall r i k, codes !! r = Some (Z.of_nat i) -> (k < i)%nat ->
       exists r', (r' < r)%nat /\ codes !! r' = Some (Z.of_nat k)).

(** The table after the body of the loop has run for column [c]. *)
Definition encoded (frame : DataFrame) (c : string) (dt : option dtype)
    (codes : list Z) : DataFrame :=
  match dt with
  | None => setitem frame c DInt64 (map VInt codes)
  | Some d =>
    setitem (setitem frame c DInt64 (map VInt codes)) c d
      (map (astype d) (map VInt codes))
  end.


(** The name occurs once in a list of requested names. *)
Definition listed_once (c : string) (cols : list string) : Prop :=
  length (filter (fun x => x = c) cols) = 1%nat.

(** The sampling fraction [negative_down_sample] computes before it
    samples: the first three statements of the function. *)
Definition sampling_fraction (data : DataFrame) (target : string)
    (pos : cell) : result spec_float :=
  pos_data ← rows_equal data target pos;
  pos_ratio ← py_truediv (float_of_int (len pos_data))
                         (float_of_int (len data));
  py_truediv pos_ratio (fsub fone pos_ratio).

(** Number of entries of a column equal to a value. *)
Definition count_equal (vs : list cell) (v : cell) : nat :=
  length (filter (fun x => cell_eqb x v = true) vs).

(** The row labelled [l] carries the value [v] in the column [s]. *)
Definition row_has (data : DataFrame) (s : Series) (v : cell) (l : Z)
  : Prop :=
  exists i x, index data !! i = Some l /\ values s !! i = Some x
              /\ cell_eqb x v = true.

(** How many codes a storage type keeps apart, when that is bounded. *)
Definition capacity (d : dtype) : option Z :=
  match d with
  | DObject => None
  | DInt64 => Some (2 ^ 63)%Z
  | DInt32 => Some (2 ^ 31)%Z
  | DFloat64 => Some (2 ^ 53)%Z
  | DFloat32 => Some (2 ^ 24)%Z
  end.

(** A column of [n] entries is within the capacity of the storage type. *)
Definition within_capacity (dt : option dtype) (n : nat) : Prop :=
  match dt with
  | None => True
  | Some d => match capacity d with
              | None => True
              | Some c => (Z.of_nat n <= c)%Z
              end
  end.

(** Notions on floats and their rounding. *)

(** Whether a shifted mantissa has lost something. *)
Definition inexact (mrs : shr_record) : bool := shr_r mrs || shr_s mrs.

Definition is_exact (l : location) : bool :=
  match l with
  | loc_Exact => true
  | loc_Inexact _ => false
  end.

(** A non-negative float of value at most the integer [K]. *)
Definition at_most (x : spec_float) (K : Z) : Prop :=
  x = S754_zero false
  \/ exists m e, x = S754_finite false m e
                 /\ e <= 0 /\ Zpos m <= K * 2 ^ (- e) /\ Zpos m < 2 ^ 53.

(** The shape of a computed sampling fraction: zero, infinite or finite,
    never negative and never [nan]. *)
Definition sign_free (x : spec_float) : Prop :=
  x = S754_zero false \/ x = S754_infinity false
  \/ exists m e, x = S754_finite false m e /\ Zpos m < 2 ^ 53.


(** The columns [qqplot] plots for a table: those not of type object. *)
Definition plotted_columns (data : DataFrame) : list Series :=
  columns (select_dtypes_exclude_object data).

(** The [j]-th slot of a grid of [n] columns, rows first. *)
Definition slot (n : Z) (j : nat) : Axes :=
  ((j / Z.to_nat n)%nat, (j mod Z.to_nat n)%nat).

(** The plot of the [j]-th plotted column [s] of [k], given its fit. *)
Definition plot_of (k : Z) (fit : Series -> Fit) (j : nat) (s : Series)
  : drawing :=
  mkDrawing (slot (fig_ncol k) j) (fit s)
    (default "#9b59b6" (palette_dtypes (s_dtype s))) (name s).
(** ** Sample tables *)

Definition t_ab : DataFrame :=
  mkFrame [0; 1]
    [mkSeries "a" DInt64 [VInt 1; VInt 2];
     mkSeries "b" DObject [VStr "x"; NA]].

Definition t_b : DataFrame :=
  mkFrame [0; 1] [mkSeries "b" DObject [VStr "x"; NA]].

Definition t_rows_only : DataFrame := mkFrame [0; 1] [].


Definition t10 : DataFrame :=
  mkFrame [0; 1; 2; 3; 4; 5; 6; 7; 8; 9]
    [mkSeries "TARGET" DInt64
       (map VInt [1; 1; 1; 0; 0; 0; 0; 0; 0; 0])].
Definition t_all : DataFrame :=
  mkFrame [0; 1] [mkSeries "TARGET" DInt64 [VInt 1; VInt 1]].

Definition t_abc : DataFrame :=
  mkFrame [0; 1]
    [mkSeries "a" DInt64 [VInt 1; VInt 2];
     mkSeries "b" DObject [VStr "x"; NA];
     mkSeries "c" DFloat64 [VFloat fone; NA]].

(** A figure library that returns the squeezed array for every grid, and
    a fit that keeps no point. *)
Definition subplots_squeeze (nrow ncol : Z) (size : Z * spec_float)
  : result ax_array :=
  Ok (squeeze (Z.to_nat nrow) (Z.to_nat ncol)).

Definition probplot_flat (vs : list cell) : result Fit :=
  Ok (mkFit [] [] fzero fzero fzero).
(** * Properties *)

(** Closes a decidable goal on concrete data by evaluation. *)
Ltac by_decide := apply (bool_decide_unpack _); vm_compute; exact I.

(** ** [drop_columns] *)

Section DropColumns.

Lemma drop_cols_ok (df : DataFrame) (cols : list string) :
  Forall (fun c => c ∈ labels df) cols ->
  drop_cols df cols
  = Ok (mkFrame (index df) (filter (fun c => name c ∉ cols) (columns df))).
Proof.
  intros Hall. unfold drop_cols.
  replace (forallb (has_label df) cols) with true; [done|].
  symmetry. apply forallb_forall. intros c Hc.
  unfold has_label. apply bool_decide_eq_true.
  rewrite Forall_forall in Hall. apply Hall. by apply list_elem_of_In.
Qed.

Lemma drop_cols_missing (df : DataFrame) (cols : list string) :
  ¬ Forall (fun c => c ∈ labels df) cols ->
  drop_cols df cols = Raise KeyError.
Proof.
  intros Hnot. unfold drop_cols.
  destruct (forallb (has_label df) cols) eqn:E; [|done].
  exfalso. apply Hnot. rewrite Forall_forall. intros c Hc.
  rewrite forallb_forall in E.
  specialize (E c (proj1 (list_elem_of_In _ _) Hc)).
  unfold has_label in E. by apply bool_decide_eq_true in E.
Qed.

(** X1: The copying call on a table with columns: a new object holds the
    result, the argument is untouched and one record is logged. *)
Lemma drop_columns_copy (w : world) (l : loc) (df : DataFrame)
    (cols : list string) :
  heap w !! l = Some df ->
  columns df ≠ [] ->
  Forall (fun c => c ∈ labels df) cols ->
  let df' := mkFrame (index df)
               (filter (fun c => name c ∉ cols) (columns df)) in
  drop_columns (PRef l) cols false w
  = (mkWorld (heap w ++ [df'])
       (log w ++ [drop_message (length (columns df')) (length cols)]),
     Ok (PRef (length (heap w)))).
Proof.
  intros Hl Hne Hall df'.
  unfold drop_columns, mbind, ST_bind, get_shape, DataFrame_drop. simpl.
  rewrite Hl. simpl.
  destruct (columns df) as [|c0 cs] eqn:Hc; [done|]. simpl.
  rewrite Hl, (drop_cols_ok df cols Hall). simpl.
  rewrite lookup_app_r by lia. rewrite Nat.sub_diag. simpl.
  unfold LOG_info, mret, ST_ret. simpl. subst df'. by rewrite Hc.
Qed.

(** X2: The in-place call on a table with columns: the table is mutated, then
    the shape of [None] is asked for; nothing is logged or returned. *)
Lemma drop_columns_inplace (w : world) (l : loc) (df : DataFrame)
    (cols : list string) :
  heap w !! l = Some df ->
  columns df ≠ [] ->
  Forall (fun c => c ∈ labels df) cols ->
  drop_columns (PRef l) cols true w
  = (mkWorld
       (<[l := mkFrame (index df)
                 (filter (fun c => name c ∉ cols) (columns df))]> (heap w))
       (log w),
     Raise AttributeError).
Proof.
  intros Hl Hne Hall.
  unfold drop_columns, mbind, ST_bind, get_shape, DataFrame_drop. simpl.
  rewrite Hl. simpl.
  destruct (columns df) as [|c0 cs] eqn:Hc; [done|]. simpl.
  rewrite Hl, (drop_cols_ok df cols Hall). simpl. by rewrite Hc.
Qed.

(** C9: on a table without columns, whatever the requested labels and the
    flag, [drop_columns] returns the table it was given: the same object,
    the store as it was, nothing logged and no exception. *)
Theorem drop_columns_zero_columns (w : world) (l : loc) (df : DataFrame)
    (cols : list string) (inplace : bool) :
  heap w !! l = Some df ->
  columns df = [] ->
  drop_columns (PRef l) cols inplace w = (w, Ok (PRef l)).
Proof.
  intros Hl Hc.
  unfold drop_columns, mbind, ST_bind, get_shape. simpl.
  rewrite Hl. simpl. by rewrite Hc.
Qed.

Lemma drop_columns_zero_columns_witness :
  drop_columns (PRef 0%nat) ["a"; "zz"] true (mkWorld [t_rows_only] [])
  = (mkWorld [t_rows_only] [], Ok (PRef 0%nat)).
Proof.
  apply (drop_columns_zero_columns (mkWorld [t_rows_only] []) 0%nat
           t_rows_only ["a"; "zz"] true); reflexivity.
Defined.

(** C1: the in-place call on a one-column-or-more table.  Dropping column
    [a] of the table with columns [a] and [b] in place mutates the table
    and then raises [AttributeError]: the table object is not returned and
    no record is logged.  The copying call on the same input returns a new
    table and logs its record. *)
Theorem drop_columns_inplace_raises :
  drop_columns (PRef 0%nat) ["a"] true (mkWorld [t_ab] [])
  = (mkWorld [t_b] [], Raise AttributeError)
  /\ drop_columns (PRef 0%nat) ["a"] false (mkWorld [t_ab] [])
     = (mkWorld [t_ab; t_b]
          ["Dataframe has 1 column after dropping 1 columns."],
        Ok (PRef 1%nat)).
Proof. split; vm_compute; reflexivity. Qed.

End DropColumns.


(** ** [column_cut] *)

Section ColumnCut.

Lemma has_label_all (df : DataFrame) (cols : list string) :
  Forall (fun c => c ∈ labels df) cols ->
  forallb (has_label df) cols = true.
Proof.
  intros Hall. apply forallb_forall. intros c Hc.
  apply bool_decide_eq_true.
  rewrite Forall_forall in Hall. apply Hall. by apply list_elem_of_In.
Qed.

(** Among columns with distinct names, a name selects one column. *)
Lemma filter_name_unique (l : list Series) (c : string) :
  NoDup (map name l) -> c ∈ map name l ->
  exists s, filter (fun s => name s = c) l = [s] /\ name s = c.
Proof.
  induction l as [|x l IH]; simpl; intros Hnd Hin.
  - by apply elem_of_nil in Hin.
  - apply NoDup_cons in Hnd as [Hx Hnd].
    destruct (decide (name x = c)) as [Heq|Hne].
    + exists x. split; [|done]. rewrite filter_cons_True by done. f_equal.
      destruct (filter (fun s => name s = c) l) as [|y ys] eqn:E; [done|].
      exfalso. apply Hx.
      assert (Hy : y ∈ filter (fun s => name s = c) l) by (rewrite E; left).
      apply list_elem_of_filter in Hy as [Hy1 Hy2].
      rewrite Heq, <- Hy1. by apply list_elem_of_fmap_2.
    + rewrite filter_cons_False by done. apply IH; [done|].
      apply elem_of_cons in Hin as [Hin|Hin]; [congruence|done].
Qed.

Lemma select_labels (l : list Series) (cols : list string) :
  NoDup (map name l) -> Forall (fun c => c ∈ map name l) cols ->
  map name (c ← cols; filter (fun s => name s = c) l) = cols.
Proof.
  intros Hnd. induction 1 as [|c cols Hc _ IH]; [done|].
  rewrite bind_cons, map_app, IH.
  destruct (filter_name_unique l c Hnd Hc) as (s & -> & <-). done.
Qed.

Lemma elem_of_select (l : list Series) (cols : list string) (s : Series) :
  s ∈ (c ← cols; filter (fun s => name s = c) l)
  <-> s ∈ l /\ name s ∈ cols.
Proof.
  rewrite list_elem_of_bind. split.
  - intros (c & Hs & Hc). apply list_elem_of_filter in Hs as [<- Hs]. done.
  - intros [Hs Hc]. exists (name s). split; [|done].
    by apply list_elem_of_filter.
Qed.

(** C3: for requested names that all exist, [column_cut] returns two
    tables over the same rows.  The first holds the columns of the input
    that the request names, its labels being the request itself, in its
    order, when the names of the input are distinct; the second holds the
    other columns as they stood; no name is on both sides; every column of
    the input is in one of the two, and with a request free of repeats the
    two column sequences together are a rearrangement of the input's. *)
Theorem column_cut_partition (frame : DataFrame) (cols : list string) :
  Forall (fun c => c ∈ labels frame) cols ->
  exists df1 df2,
    column_cut frame cols = Ok (df1, df2)
    /\ index df1 = index frame /\ index df2 = index frame
    /\ (forall s, s ∈ columns df1 <-> s ∈ columns frame /\ name s ∈ cols)
    /\ (NoDup (labels frame) -> labels df1 = cols)
    /\ columns df2 = filter (fun s => name s ∉ cols) (columns frame)
    /\ (forall c, c ∈ labels df1 -> c ∉ labels df2)
    /\ (forall s, s ∈ columns frame <-> s ∈ columns df1 \/ s ∈ columns df2)
    /\ (NoDup (labels frame) -> NoDup cols ->
        columns df1 ++ columns df2 ≡ₚ columns frame).
Proof.
  intros Hall.
  unfold column_cut, getitem_list.
  rewrite (has_label_all frame cols Hall), (drop_cols_ok frame cols Hall).
  simpl. eexists _, _. split; [reflexivity|]. simpl.
  assert (H1 : forall s,
    s ∈ (c ← cols; filter (fun s => name s = c) (columns frame))
    <-> s ∈ columns frame /\ name s ∈ cols) by (intros; apply elem_of_select).
  assert (H2 : forall s,
    s ∈ filter (fun s => name s ∉ cols) (columns frame)
    <-> s ∈ columns frame /\ name s ∉ cols).
  { intros s. rewrite list_elem_of_filter. tauto. }
  assert (Hlab : NoDup (labels frame) ->
    labels (mkFrame (index frame)
      (c ← cols; filter (fun s => name s = c) (columns frame))) = cols).
  { intros Hnd. by apply select_labels. }
  repeat split; try done.
  - by apply H1.
  - by apply H1.
  - by intros [? ?]; apply H1.
  - unfold labels. simpl. intros c Hc1 Hc2.
    apply list_elem_of_fmap in Hc1 as (s1 & -> & Hs1).
    apply list_elem_of_fmap in Hc2 as (s2 & Heq & Hs2).
    apply H1 in Hs1 as [_ Hs1]. apply H2 in Hs2 as [_ Hs2].
    rewrite Heq in Hs1. done.
  - intros Hs. destruct (decide (name s ∈ cols)).
    + left. by apply H1.
    + right. by apply H2.
  - intros [Hs|Hs]; [by apply H1 in Hs as [? _]|by apply H2 in Hs as [? _]].
  - intros Hnd Hndc. apply NoDup_Permutation.
    + apply NoDup_app. split; [|split].
      * apply (NoDup_fmap_1 name). specialize (Hlab Hnd).
        unfold labels in Hlab. simpl in Hlab.
        assert (Hn : NoDup (map name
          (c ← cols; filter (fun s => name s = c) (columns frame))))
          by (by rewrite Hlab).
        exact Hn.
      * intros s Hs1 Hs2. apply H1 in Hs1 as [_ ?]. apply H2 in Hs2 as [_ ?].
        done.
      * apply NoDup_filter. by apply (NoDup_fmap_1 name).
    + by apply (NoDup_fmap_1 name).
    + intros s. rewrite elem_of_app, H1, H2.
      destruct (decide (name s ∈ cols)); tauto.
Qed.

Lemma column_cut_partition_witness :
  exists df1 df2,
    column_cut t_ab ["b"] = Ok (df1, df2)
    /\ labels df1 = ["b"] /\ labels df2 = ["a"]
    /\ columns df1 ++ columns df2 ≡ₚ columns t_ab.
Proof.
  destruct (column_cut_partition t_ab ["b"]) as
    (df1 & df2 & Hcut & _ & _ & _ & Hlab & Hdf2 & _ & _ & Hperm).
  { by_decide. }
  exists df1, df2. split; [exact Hcut|]. split; [|split].
  - apply Hlab. by_decide.
  - unfold labels. rewrite Hdf2. vm_compute. reflexivity.
  - apply Hperm; by_decide.
Defined.

End ColumnCut.

(** ** [common_columns] *)

Section CommonColumns.

Lemma combinations2_map {A B} (f : A -> B) (l : list A) :
  combinations2 (map f l)
  = map (fun p => (f (fst p), f (snd p))) (combinations2 l).
Proof.
  induction l as [|x l IH]; [done|]. simpl.
  rewrite map_app, IH, !map_map. done.
Qed.

Lemma combinations2_length {A} (l : list A) :
  (length (combinations2 l) * 2 = length l * (length l - 1))%nat.
Proof.
  induction l as [|x l IH]; [done|]. simpl.
  rewrite length_app, length_map. nia.
Qed.

Lemma elem_of_combinations2 {A} (l : list A) (x y : A) :
  (x, y) ∈ combinations2 l
  <-> exists i j, (i < j)%nat /\ l !! i = Some x /\ l !! j = Some y.
Proof.
  induction l as [|z l IH]; simpl.
  - split; [by intros ?%elem_of_nil|]. by intros (i & j & _ & Hi & _).
  - rewrite elem_of_app, IH. split.
    + intros [Hin|(i & j & Hij & Hi & Hj)].
      * apply list_elem_of_fmap in Hin as (y' & [= -> ->] & Hy).
        apply list_elem_of_lookup in Hy as [j Hj].
        exists 0%nat, (S j). split; [lia|done].
      * exists (S i), (S j). split; [lia|done].
    + intros (i & j & Hij & Hi & Hj).
      destruct j as [|j]; [lia|]. simpl in Hj.
      destruct i as [|i]; simpl in Hi.
      * left. injection Hi as ->. apply list_elem_of_fmap.
        exists y. split; [done|]. by eapply list_elem_of_lookup_2.
      * right. exists i, j. split; [lia|done].
Qed.

Lemma elem_of_combinations2_seq (a n i j : nat) :
  (i, j) ∈ combinations2 (seq a n) <-> (a <= i < j /\ j < a + n)%nat.
Proof.
  rewrite elem_of_combinations2. split.
  - intros (p & q & Hpq & Hp & Hq).
    apply lookup_seq in Hp as [-> ?]. apply lookup_seq in Hq as [-> ?]. lia.
  - intros [[Ha Hij] Hj]. exists (i - a)%nat, (j - a)%nat.
    split; [lia|]. split; apply lookup_seq; lia.
Qed.

Lemma combinations2_NoDup {A} (l : list A) :
  NoDup l -> NoDup (combinations2 l).
Proof.
  induction 1 as [|x l Hx Hnd IH]; simpl; [constructor|].
  apply NoDup_app. split; [|split; [|done]].
  - apply NoDup_fmap_2; [|done]. by intros ?? [=].
  - intros [x' y] Hin1 Hin2.
    apply list_elem_of_fmap in Hin1 as (? & [= -> ->] & _).
    apply elem_of_combinations2 in Hin2 as (i & _ & _ & Hi & _).
    apply Hx. by eapply list_elem_of_lookup_2.
Qed.

Lemma combinations2_seq_sorted (a n : nat) :
  StronglySorted pair_lt (combinations2 (seq a n)).
Proof.
  revert a. induction n as [|n IH]; intros a; simpl; [constructor|].
  apply StronglySorted_app; split; [|split; [|apply IH]].
  - intros [i j] [i' j'] H1 H2.
    apply list_elem_of_fmap in H1 as (? & [= -> ->] & _).
    apply elem_of_combinations2_seq in H2. left. simpl. lia.
  - generalize (S a). clear IH. intros b. revert b.
    induction n as [|n IH]; intros b; simpl; constructor; [apply IH|].
    apply Forall_forall. intros [i j] Hin.
    apply list_elem_of_fmap in Hin as (y & [= -> ->] & Hy).
    apply elem_of_seq in Hy. right. simpl. lia.
Qed.

Lemma enumerate_fst {A} (l : list A) a :
  map fst (zip (seq a (length l)) l) = seq a (length l).
Proof.
  revert a. induction l as [|x l IH]; intros a; simpl; [done|].
  by rewrite IH.
Qed.

Lemma enumerate_lookup {A} (l : list A) a i x :
  (i, x) ∈ zip (seq a (length l)) l -> (a <= i)%nat /\ l !! (i - a)%nat = Some x.
Proof.
  revert a. induction l as [|y l IH]; intros a; simpl.
  - by intros ?%elem_of_nil.
  - intros [[= -> ->]|Hin]%elem_of_cons.
    + by rewrite Nat.sub_diag.
    + apply IH in Hin as [Ha Hl]. split; [lia|].
      replace (i - a)%nat with (S (i - S a)) by lia. done.
Qed.

Lemma common_columns_indices (dfs : list DataFrame) :
  map fst (common_columns dfs) = combinations2 (seq 0 (length dfs)).
Proof.
  unfold common_columns, enumerate.
  rewrite <- (enumerate_fst dfs 0) at 2.
  rewrite combinations2_map, map_map.
  apply map_ext. by intros [[i1 df1] [i2 df2]].
Qed.

(** C5: the elements yielded for [n] tables are indexed by the pairs
    [i < j] below [n], each once, ordered by [i] and then [j] (so there are
    [n * (n - 1) / 2] of them, and [(0,1), (0,2), (1,2)] for three tables);
    the set paired with [(i, j)] holds the names found in both table [i]
    and table [j]: all of them when the two tables have the same names,
    none when they have no name in common. *)
Theorem common_columns_pairs (dfs : list DataFrame) :
  map fst (common_columns dfs) = combinations2 (seq 0 (length dfs))
  /\ (length (common_columns dfs) * 2
      = length dfs * (length dfs - 1))%nat
  /\ (forall i j, (i, j) ∈ map fst (common_columns dfs)
                  <-> (i < j < length dfs)%nat)
  /\ NoDup (map fst (common_columns dfs))
  /\ StronglySorted pair_lt (map fst (common_columns dfs))
  /\ (length dfs = 3%nat ->
      map fst (common_columns dfs) = [(0, 1); (0, 2); (1, 2)]%nat)
  /\ (forall i j s, ((i, j), s) ∈ common_columns dfs ->
      exists a b,
        dfs !! i = Some a /\ dfs !! j = Some b
        /\ (forall c, c ∈ s <-> c ∈ labels a /\ c ∈ labels b)
        /\ ((forall c, c ∈ labels a <-> c ∈ labels b) ->
            s = list_to_set (labels a))
        /\ ((forall c, c ∈ labels a -> c ∉ labels b) -> s = ∅)).
Proof.
  pose proof (common_columns_indices dfs) as Hidx.
  split; [done|]. split; [|split; [|split; [|split; [|split]]]].
  - rewrite <- (length_map fst), Hidx, combinations2_length, length_seq.
    done.
  - intros i j. rewrite Hidx, elem_of_combinations2_seq. lia.
  - rewrite Hidx. apply combinations2_NoDup, NoDup_seq.
  - rewrite Hidx. apply combinations2_seq_sorted.
  - intros Hn. rewrite Hidx, Hn. reflexivity.
  - intros i j s Hin. unfold common_columns in Hin.
    apply list_elem_of_fmap in Hin as ([[i1 a] [i2 b]] & [= -> -> ->] & Hin).
    apply elem_of_combinations2 in Hin as (p & q & _ & Hp & Hq).
    apply list_elem_of_lookup_2, enumerate_lookup in Hp as [_ Hp].
    apply list_elem_of_lookup_2, enumerate_lookup in Hq as [_ Hq].
    rewrite Nat.sub_0_r in Hp, Hq.
    exists a, b. split; [done|]. split; [done|]. split; [|split].
    + intros c. rewrite elem_of_intersection, !elem_of_list_to_set. done.
    + intros Hsame. apply set_eq. intros c.
      rewrite elem_of_intersection, !elem_of_list_to_set.
      specialize (Hsame c). tauto.
    + intros Hdisj. apply set_eq. intros c.
      rewrite elem_of_intersection, !elem_of_list_to_set.
      split; [|by intros ?%elem_of_empty].
      intros [Ha Hb]. exfalso. by apply (Hdisj c).
Qed.

End CommonColumns.

(** ** [frame_info] *)

Section FrameInfo.

Lemma count_isna_sum (vs : list cell) :
  (isna_sum vs + count vs = length vs)%nat.
Proof.
  unfold isna_sum, count. induction vs as [|v vs IH]; [done|].
  rewrite !filter_cons. destruct (is_na v); simpl.
  - destruct (decide (true = true)), (decide (true = false)); simpl; try done; lia.
  - destruct (decide (false = true)), (decide (false = false)); simpl; try done; lia.
Qed.

Lemma unique_from_subseteq (seen vs : list cell) (v : cell) :
  v ∈ unique_from seen vs -> v ∈ vs.
Proof.
  revert seen. induction vs as [|x vs IH]; intros seen; simpl.
  - done.
  - case_bool_decide.
    + intros H'. right. by eapply IH.
    + intros [->|H']%elem_of_cons; [left|right; by eapply IH].
Qed.

(** A column without a present entry has no distinct present entry. *)
Lemma nunique_all_missing (vs : list cell) :
  count vs = 0%nat -> nunique vs = 0%nat.
Proof.
  unfold count, nunique, unique. intros Hc.
  destruct (filter (fun v => is_na v = false) (unique_from [] vs))
    as [|v l] eqn:E; [done|].
  assert (Hv : v ∈ filter (fun v => is_na v = false) (unique_from [] vs))
    by (rewrite E; left).
  apply list_elem_of_filter in Hv as [Hna Hv].
  apply unique_from_subseteq in Hv.
  assert (Hin : v ∈ filter (fun v => is_na v = false) vs)
    by (by apply list_elem_of_filter).
  destruct (filter (fun v => is_na v = false) vs); [|done].
  by apply elem_of_nil in Hin.
Qed.

Lemma build_summary_describes (nrow : nat) (cs cs' : list Series)
    (g : Series -> list cell) :
  length cs' = length cs ->
  Forall2 (describes nrow) cs
    (build_summary
       (map (fun s => (name s, s_dtype s)) cs)
       (map (fun s => (name s, g s)) cs')
       (series_div_scalar
          (map (fun s => (name s, isna_sum (values s))) cs) nrow)
       (map (fun s => (name s, isna_sum (values s))) cs)
       (map (fun s => (name s, count (values s))) cs)
       (series_div
          (map (fun s => (name s, nunique (values s))) cs)
          (map (fun s => (name s, count (values s))) cs))
       (map (fun s => (name s, nunique (values s))) cs)).
Proof.
  revert cs'. induction cs as [|s cs IH]; intros [|s' cs'] Hlen;
    simpl in *; try done.
  constructor; [|apply IH; lia].
  repeat split.
Qed.

Lemma take_rows_columns_length (df : DataFrame) (pos : list nat) :
  length (columns (take_rows df pos)) = length (columns df).
Proof. unfold take_rows. simpl. by rewrite length_map. Qed.

Lemma sample_n_ok (rs : random_state) (df : DataFrame) (n : Z) :
  0 <= n <= Z.of_nat (length (index df)) ->
  sample_n rs df n
  = Ok (take_rows df (draw rs (seq 0 (length (index df))) (Z.to_nat n))).
Proof.
  intros [Hn1 Hn2]. unfold sample_n, choice.
  replace (n <? 0)%Z with false by (symmetry; apply Z.ltb_ge; lia).
  replace (Z.of_nat (length (index df)) <? n)%Z with false
    by (symmetry; apply Z.ltb_ge; lia).
  done.
Qed.

(** The summary computed by a successful call: one row per column, each
    describing its column; a styled result wraps the transformed summary. *)
Lemma frame_info_summary (frame : DataFrame) (n_samples : Z)
    (styling : bool) (before_styling : summary -> summary)
    (rs : random_state) :
  exists r res,
    frame_info frame n_samples styling before_styling rs
    = Ok ([shape_line frame], r)
    /\ summary_of r = (if styling then before_styling res else res)
    /\ Forall2 (describes (length (index frame))) (columns frame) res.
Proof.
  unfold frame_info. simpl.
  set (max10k := Z.min 10000 (Z.of_nat (length (index frame)) / 10)).
  assert (Hm : 0 <= max10k <= Z.of_nat (length (index frame))).
  { subst max10k.
    pose proof (Z.div_pos (Z.of_nat (length (index frame))) 10).
    pose proof (Z.div_le_upper_bound (Z.of_nat (length (index frame))) 10
                  (Z.of_nat (length (index frame)))).
    lia. }
  rewrite (sample_n_ok rs frame max10k Hm). simpl.
  set (sampled := take_rows frame _).
  pose proof (build_summary_describes (length (index frame))
    (columns frame) (columns sampled)
    (fun x => slice_to (Z.min 1000 (Z.min max10k n_samples))
                (unique (values x)))
    (take_rows_columns_length frame _)) as Hd.
  destruct styling; simpl.
  - eexists _, _. split; [reflexivity|]. split; [reflexivity|]. exact Hd.
  - eexists _, _. split; [reflexivity|]. split; [reflexivity|]. exact Hd.
Qed.





End FrameInfo.

(** ** [categorize] *)

Section Factorize.

Lemma index_of_Some (u : list cell) (v : cell) (i : nat) :
  index_of u v = Some i ->
  exists w, u !! i = Some w /\ cell_key w = cell_key v.
Proof.
  unfold index_of. intros H.
  apply fmap_Some in H as ([j w] & Hfind & ->).
  apply list_find_Some in Hfind as (Hl & Hk & _). by exists w.
Qed.

Lemma index_of_None (u : list cell) (v : cell) :
  index_of u v = None -> cell_key v ∉ map cell_key u.
Proof.
  unfold index_of. intros H. apply fmap_None in H.
  apply list_find_None in H. rewrite Forall_forall in H.
  intros Hin. apply list_elem_of_fmap in Hin as (w & Heq & Hw).
  by apply (H w Hw).
Qed.

Lemma index_of_lookup (u : list cell) (v w : cell) (i : nat) :
  NoDup (map cell_key u) -> u !! i = Some w -> cell_key w = cell_key v ->
  index_of u v = Some i.
Proof.
  intros Hnd Hl Hk. unfold index_of.
  replace (list_find (fun w0 => cell_key w0 = cell_key v) u)
    with (Some (i, w)); [done|].
  symmetry. apply list_find_Some. split; [done|]. split; [done|].
  intros j y Hj Hlt Hy.
  assert (j = i); [|lia].
  apply (NoDup_lookup (map cell_key u) j i (cell_key v)); [done|..].
  - change (map cell_key u) with (cell_key <$> u).
    by rewrite list_lookup_fmap, Hj, <- Hy.
  - change (map cell_key u) with (cell_key <$> u).
    by rewrite list_lookup_fmap, Hl, <- Hk.
Qed.

Lemma factorize_from_spec (vs : list cell) :
  forall (u0 : list cell) (codes : list Z) (u : list cell),
  factorize_from u0 vs = (codes, u) ->
  NoDup (map cell_key u0) ->
  Forall (fun w => is_na w = false) u0 ->
  length codes = length vs
  /\ NoDup (map cell_key u)
  /\ Forall (fun w => is_na w = false) u
  /\ (exists ext, u = u0 ++ ext /\ forall w, w ∈ ext -> w ∈ vs)
  /\ (forall r v, vs !! r = Some v -> is_na v = true ->
      codes !! r = Some (-1))
  /\ (forall r v, vs !! r = Some v -> is_na v = false ->
      exists i w, codes !! r = Some (Z.of_nat i)
                  /\ u !! i = Some w /\ cell_key w = cell_key v)
  /\ (forall r i k, codes !! r = Some (Z.of_nat i) ->
      (length u0 <= k < i)%nat ->
      exists r', (r' < r)%nat /\ codes !! r' = Some (Z.of_nat k)).
Proof.
  induction vs as [|v vs IH]; intros u0 codes u Hf Hnd Hna; simpl in Hf.
  - injection Hf as <- <-.
    split; [done|]. split; [done|]. split; [done|]. split; [|split; [|split]].
    + exists []. split; [by rewrite app_nil_r|]. by intros ? ?%elem_of_nil.
    + intros r x Hr. by destruct r.
    + intros r x Hr. by destruct r.
    + intros r i k Hr. by destruct r.
  - destruct (is_na v) eqn:Ev.
    + destruct (factorize_from u0 vs) as [codes' u'] eqn:E.
      injection Hf as <- <-.
      destruct (IH u0 codes' u' E Hnd Hna)
        as (Hlen & Hnd' & Hna' & (ext & Hext & Hin) & Hmiss & Hpres & Hfirst).
      repeat split; try done.
      * simpl. by rewrite Hlen.
      * exists ext. split; [done|]. intros w Hw. right. by apply Hin.
      * intros [|r] x Hx Hxna; simpl in *; [done|]. by eapply Hmiss.
      * intros [|r] x Hx Hxna; simpl in *.
        { injection Hx as <-. congruence. }
        by eapply Hpres.
      * intros [|r] i k Hr Hk; simpl in *.
        { injection Hr as Hr. lia. }
        destruct (Hfirst r i k Hr Hk) as (r' & Hlt & Hr').
        exists (S r'). split; [lia|done].
    + destruct (index_of u0 v) as [i0|] eqn:Ei.
      * destruct (factorize_from u0 vs) as [codes' u'] eqn:E.
        injection Hf as <- <-.
        destruct (IH u0 codes' u' E Hnd Hna)
          as (Hlen & Hnd' & Hna' & (ext & Hext & Hin) & Hmiss & Hpres & Hfirst).
        destruct (index_of_Some u0 v i0 Ei) as (w0 & Hw0 & Hk0).
        repeat split; try done.
        -- simpl. by rewrite Hlen.
        -- exists ext. split; [done|]. intros w Hw. right. by apply Hin.
        -- intros [|r] x Hx Hxna; simpl in *.
           { injection Hx as <-. congruence. }
           by eapply Hmiss.
        -- intros [|r] x Hx Hxna; simpl in *.
           { injection Hx as <-. exists i0, w0. split; [done|]. split; [|done].
             rewrite Hext. rewrite lookup_app_l; [done|].
             by eapply lookup_lt_Some. }
           by eapply Hpres.
        -- intros [|r] i k Hr Hk; simpl in *.
           { injection Hr as Hr. apply Nat2Z.inj in Hr. subst i.
             apply lookup_lt_Some in Hw0. lia. }
           destruct (Hfirst r i k Hr Hk) as (r' & Hlt & Hr').
           exists (S r'). split; [lia|done].
      * destruct (factorize_from (u0 ++ [v]) vs) as [codes' u'] eqn:E.
        injection Hf as <- <-.
        assert (Hnd1 : NoDup (map cell_key (u0 ++ [v]))).
        { rewrite map_app. simpl. apply NoDup_app. split; [done|].
          split; [|apply NoDup_singleton].
          intros x Hx ->%list_elem_of_singleton.
          by apply (index_of_None u0 v Ei). }
        assert (Hna1 : Forall (fun w => is_na w = false) (u0 ++ [v])).
        { apply Forall_app. split; [done|]. by constructor. }
        destruct (IH (u0 ++ [v]) codes' u' E Hnd1 Hna1)
          as (Hlen & Hnd' & Hna' & (ext & Hext & Hin) & Hmiss & Hpres & Hfirst).
        repeat split; try done.
        -- simpl. by rewrite Hlen.
        -- exists (v :: ext). split; [by rewrite Hext, <- app_assoc|].
           intros w [->|Hw]%elem_of_cons; [left|right; by apply Hin].
        -- intros [|r] x Hx Hxna; simpl in *.
           { injection Hx as <-. congruence. }
           by eapply Hmiss.
        -- intros [|r] x Hx Hxna; simpl in *.
           { injection Hx as <-. exists (length u0), v.
             split; [done|]. split; [|done].
             rewrite Hext, <- app_assoc. by apply list_lookup_middle. }
           by eapply Hpres.
        -- intros [|r] i k Hr Hk; simpl in *.
           { injection Hr as Hr. lia. }
           destruct (decide (k = length u0)) as [->|Hne].
           { exists 0%nat. split; [lia|done]. }
           destruct (Hfirst r i k Hr) as (r' & Hlt & Hr').
           { rewrite length_app. simpl. lia. }
           exists (S r'). split; [lia|done].
Qed.

(** [pd.factorize] yields the first-appearance coding of its argument. *)
Lemma factorize_coding (vs : list cell) (codes : list Z) (u : list cell) :
  factorize vs = (codes, u) -> coding vs codes u.
Proof.
  intros Hf. unfold factorize in Hf.
  destruct (factorize_from_spec vs [] codes u Hf)
    as (Hlen & Hnd & Hna & (ext & Hext & Hin) & Hmiss & Hpres & Hfirst);
    [constructor|constructor|].
  simpl in Hext. subst ext.
  repeat split; try done.
  intros r i k Hr Hk. apply (Hfirst r i k Hr). simpl. lia.
Qed.

End Factorize.

(** Lists searched and overwritten by a key: columns by name, [dict]
    entries by key. *)
Section Keyed.
Context {A K : Type} `{EqDecision K} (key : A -> K).

Lemma find_key_cons (k : K) (y : A) (l : list A) :
  find_key key k (y :: l) = if decide (key y = k) then Some y else find_key key k l.
Proof.
  unfold find_key. simpl. destruct (decide (key y = k)); [done|].
  by destruct (list_find (fun y0 => key y0 = k) l) as [[? ?]|].
Qed.

Lemma find_key_None (k : K) (l : list A) :
  find_key key k l = None <-> k ∉ map key l.
Proof.
  induction l as [|y l IH]; [split; [by intros _ ?%elem_of_nil|done]|].
  rewrite find_key_cons. simpl. rewrite not_elem_of_cons.
  destruct (decide (key y = k)) as [<-|Hne]; [split; [done|by intros []]|].
  rewrite IH. split; [by intros ?; split|by intros []].
Qed.

Lemma find_key_replace_same (k : K) (x : A) (l : list A) :
  key x = k -> k ∈ map key l -> find_key key k (replace_key key k x l) = Some x.
Proof.
  intros Hx. induction l as [|y l IH]; simpl; [by intros ?%elem_of_nil|].
  intros Hin. rewrite find_key_cons.
  destruct (decide (key y = k)) as [Heq|Hne].
  - by rewrite decide_True.
  - rewrite decide_False by done. apply IH.
    apply elem_of_cons in Hin as [Hin|Hin]; [congruence|done].
Qed.

Lemma find_key_replace_other (k k' : K) (x : A) (l : list A) :
  key x = k -> k' ≠ k ->
  find_key key k' (replace_key key k x l) = find_key key k' l.
Proof.
  intros Hx Hne. induction l as [|y l IH]; simpl; [done|].
  rewrite !find_key_cons, IH.
  destruct (decide (key y = k)) as [Heq|Hne'].
  - rewrite !decide_False by congruence. done.
  - done.
Qed.

Lemma find_key_snoc_same (k : K) (x : A) (l : list A) :
  key x = k -> k ∉ map key l -> find_key key k (l ++ [x]) = Some x.
Proof.
  intros Hx. induction l as [|y l IH]; simpl; intros Hnin.
  - rewrite find_key_cons. by rewrite decide_True.
  - apply not_elem_of_cons in Hnin as [Hne Hnin].
    rewrite find_key_cons, decide_False by done. by apply IH.
Qed.

Lemma find_key_snoc_other (k k' : K) (x : A) (l : list A) :
  key x = k -> k' ≠ k -> find_key key k' (l ++ [x]) = find_key key k' l.
Proof.
  intros Hx Hne. induction l as [|y l IH]; simpl.
  - rewrite find_key_cons, decide_False by congruence. done.
  - by rewrite !find_key_cons, IH.
Qed.

Lemma replace_key_keys (k : K) (x : A) (l : list A) :
  key x = k -> map key (replace_key key k x l) = map key l.
Proof.
  intros Hx. unfold replace_key. rewrite map_map. apply map_ext.
  intros y. destruct (decide (key y = k)); congruence.
Qed.
End Keyed.

Section Categorize.

Lemma getitem_find (df : DataFrame) (c : string) :
  getitem df c = match find_key name c (columns df) with
                 | Some s => Ok s
                 | None => Raise KeyError
                 end.
Proof. done. Qed.

Lemma getitem_present (df : DataFrame) (c : string) :
  c ∈ labels df -> exists s, getitem df c = Ok s /\ name s = c.
Proof.
  intros Hin. rewrite getitem_find.
  destruct (find_key name c (columns df)) as [s|] eqn:E.
  - exists s. split; [done|]. unfold find_key in E.
    apply fmap_Some in E as ([i s'] & Hf & ->).
    by apply list_find_Some in Hf as (_ & ? & _).
  - by apply find_key_None in E.
Qed.

Lemma setitem_present (df : DataFrame) (c : string) (d : dtype)
    (vs : list cell) :
  c ∈ labels df ->
  setitem df c d vs
  = mkFrame (index df) (replace_key name c (mkSeries c d vs) (columns df)).
Proof.
  intros Hin. unfold setitem, has_label.
  by rewrite bool_decide_eq_true_2.
Qed.

Lemma encoded_spec (frame : DataFrame) (c : string) (dt : option dtype)
    (codes : list Z) :
  c ∈ labels frame ->
  labels (encoded frame c dt codes) = labels frame
  /\ index (encoded frame c dt codes) = index frame
  /\ (exists s', getitem (encoded frame c dt codes) c = Ok s'
                 /\ values s' = map (store dt) codes)
  /\ (forall c', c' ≠ c ->
      getitem (encoded frame c dt codes) c' = getitem frame c').
Proof.
  intros Hin.
  assert (H1 : labels (setitem frame c DInt64 (map VInt codes))
               = labels frame).
  { rewrite setitem_present by done. unfold labels. simpl.
    by apply replace_key_keys. }
  destruct dt as [d|]; simpl.
  - rewrite (setitem_present (setitem frame c DInt64 (map VInt codes)))
      by (by rewrite H1).
    rewrite setitem_present by done. simpl.
    split; [|split; [done|split]].
    + unfold labels. simpl. by rewrite !replace_key_keys.
    + eexists. rewrite getitem_find. simpl.
      rewrite find_key_replace_same; [split; [reflexivity|]|done|].
      * simpl. by rewrite map_map.
      * by rewrite replace_key_keys.
    + intros c' Hne. rewrite !getitem_find. simpl.
      by rewrite !find_key_replace_other.
  - rewrite setitem_present by done. simpl.
    split; [|split; [done|split]].
    + unfold labels. simpl. by rewrite !replace_key_keys.
    + eexists. rewrite getitem_find. simpl.
      rewrite find_key_replace_same; [split; [reflexivity|]|done|done].
      done.
    + intros c' Hne. rewrite !getitem_find. simpl.
      by rewrite !find_key_replace_other.
Qed.

Lemma categorize_step (frame : DataFrame) (uniques : dict) (c : string)
    (cols : list string) (dt : option dtype) (s : Series)
    (codes : list Z) (u : list cell) :
  c ∈ labels frame ->
  getitem frame c = Ok s ->
  factorize (values s) = (codes, u) ->
  categorize_loop uniques (c :: cols) dt frame
  = categorize_loop (dict_set uniques c u) cols dt
      (encoded frame c dt codes).
Proof.
  intros Hin Hget Hf. simpl.
  unfold mbind, ST_bind, read_column, write_column. rewrite Hget, Hf.
  destruct dt as [d|]; simpl; [|done].
  destruct (encoded_spec frame c None codes Hin) as (_ & _ & (s1 & Hs1 & Hv1) & _).
  simpl in Hs1, Hv1. rewrite Hs1. simpl. by rewrite Hv1.
Qed.

Lemma dict_get_set_same (d : dict) (k : string) (v : list cell) :
  dict_get (dict_set d k v) k = Some v.
Proof.
  unfold dict_get, dict_set. case_bool_decide as Hk.
  - by rewrite find_key_replace_same.
  - by rewrite find_key_snoc_same.
Qed.

Lemma dict_get_set_other (d : dict) (k k' : string) (v : list cell) :
  k' ≠ k -> dict_get (dict_set d k v) k' = dict_get d k'.
Proof.
  intros Hne. unfold dict_get, dict_set. case_bool_decide as Hk.
  - by rewrite (find_key_replace_other fst k k').
  - by rewrite (find_key_snoc_other fst k k').
Qed.

End Categorize.

Section CategorizeLoop.

Lemma filter_eq_pos (c : string) (cols : list string) :
  c ∈ cols -> (1 <= length (filter (fun x => x = c) cols))%nat.
Proof.
  intros Hin.
  assert (Hc : c ∈ filter (fun x => x = c) cols)
    by (by apply list_elem_of_filter).
  destruct (filter (fun x => x = c) cols); [by apply elem_of_nil in Hc|].
  simpl. lia.
Qed.

Lemma store_values_length (dt : option dtype) (codes : list Z) :
  length (map (store dt) codes) = length codes.
Proof. apply length_map. Qed.

(** The loop of [categorize]: it ends without an exception when the names
    exist; every listed column ends up holding the stored codes of the
    entries it held when it was last encoded, next to their decode
    sequence; other columns and entries of the [dict] stay. *)
Lemma categorize_loop_spec (dt : option dtype) (cols : list string) :
  forall (frame : DataFrame) (uniques : dict),
  Forall (fun c => c ∈ labels frame) cols ->
  exists frame' uniques',
    categorize_loop uniques cols dt frame = (frame', Ok uniques')
    /\ labels frame' = labels frame
    /\ index frame' = index frame
    /\ (forall c, c ∉ cols ->
        getitem frame' c = getitem frame c
        /\ dict_get uniques' c = dict_get uniques c)
    /\ (forall c, c ∈ cols ->
        exists s s' u prev codes,
          getitem frame c = Ok s
          /\ getitem frame' c = Ok s'
          /\ dict_get uniques' c = Some u
          /\ values s' = map (store dt) codes
          /\ coding prev codes u
          /\ length prev = length (values s)
          /\ (listed_once c cols -> prev = values s)).
Proof.
  induction cols as [|c0 cols IH]; intros frame uniques Hall.
  - exists frame, uniques. split_and!; try done.
    intros c Hc. by apply elem_of_nil in Hc.
  - apply Forall_cons in Hall as [Hc0 Hall].
    destruct (getitem_present frame c0 Hc0) as (s0 & Hs0 & _).
    destruct (factorize (values s0)) as [codes0 u0] eqn:Hf.
    rewrite (categorize_step frame uniques c0 cols dt s0 codes0 u0 Hc0 Hs0 Hf).
    pose proof (factorize_coding _ _ _ Hf) as Hcoding.
    destruct (encoded_spec frame c0 dt codes0 Hc0)
      as (Hlab2 & Hidx2 & (s2 & Hs2 & Hv2) & Hother2).
    destruct (IH (encoded frame c0 dt codes0) (dict_set uniques c0 u0))
      as (frame' & uniques' & Hrun & Hlab & Hidx & Hnotin & Hin).
    { by rewrite Hlab2. }
    exists frame', uniques'. split; [done|].
    split; [by rewrite Hlab|]. split; [by rewrite Hidx|]. split.
    + intros c Hc. apply not_elem_of_cons in Hc as [Hne Hc].
      destruct (Hnotin c Hc) as [Hg Hd]. split.
      * by rewrite Hg, Hother2.
      * by rewrite Hd, dict_get_set_other.
    + intros c Hc. destruct (decide (c ∈ cols)) as [Hcin|Hcnot].
      * destruct (Hin c Hcin)
          as (s & s' & u & prev & codes & Hg & Hg' & Hd & Hv & Hcod & Hlen & Honce).
        destruct (decide (c = c0)) as [->|Hne].
        -- exists s0, s', u, prev, codes. split_and!; try done.
           ++ rewrite Hlen. rewrite Hs2 in Hg. injection Hg as <-.
              rewrite Hv2, store_values_length.
              by destruct Hcoding as (? & _).
           ++ intros H1. unfold listed_once in H1.
              rewrite filter_cons_True in H1 by done. simpl in H1.
              pose proof (filter_eq_pos c0 cols Hcin). lia.
        -- exists s, s', u, prev, codes.
           rewrite (Hother2 c Hne) in Hg. split_and!; try done.
           intros H1. apply Honce. unfold listed_once in *.
           by rewrite filter_cons_False in H1 by done.
      * assert (c = c0) as ->
          by (by apply elem_of_cons in Hc as [?|?]).
        destruct (Hnotin c0 Hcnot) as [Hg Hd].
        exists s0, s2, u0, (values s0), codes0. split_and!; try done.
        -- by rewrite Hg.
        -- by rewrite Hd, dict_get_set_same.
Qed.

Lemma coding_uniques_length (vs : list cell) (codes : list Z)
    (u : list cell) :
  coding vs codes u -> (length u <= length vs)%nat.
Proof.
  intros (_ & Hnd & _ & Hsub & _).
  apply submseteq_length, NoDup_submseteq; [|done].
  by apply (NoDup_fmap_1 cell_key).
Qed.

(** In a coding, a non-negative code is a position of the decode sequence
    and the element there is encoded by that code. *)
Lemma coding_round_trip (vs : list cell) (codes : list Z) (u : list cell)
    (r : nat) (i : Z) :
  coding vs codes u -> codes !! r = Some i -> 0 <= i ->
  exists v, decode u i = Some v /\ encode u v = Some i.
Proof.
  intros (Hlen & Hnd & _ & _ & Hmiss & Hpres & _) Hr Hi.
  destruct (vs !! r) as [v|] eqn:Hv.
  - destruct (is_na v) eqn:Ena.
    + rewrite (Hmiss r v Hv Ena) in Hr. injection Hr as <-. lia.
    + destruct (Hpres r v Hv Ena) as (i' & w & Hc & Hu & Hk).
      rewrite Hc in Hr. injection Hr as <-.
      exists w. unfold decode, encode.
      replace (Z.of_nat i' <? 0)%Z with false
        by (symmetry; apply Z.ltb_ge; lia).
      rewrite Nat2Z.id. split; [done|].
      by rewrite (index_of_lookup u w w i' Hnd Hu).
  - apply lookup_ge_None in Hv. apply lookup_lt_Some in Hr. lia.
Qed.

Lemma coding_code_range (vs : list cell) (codes : list Z) (u : list cell)
    (r : nat) (i : Z) :
  coding vs codes u -> codes !! r = Some i ->
  -1 <= i < Z.of_nat (length vs).
Proof.
  intros Hcod Hr. pose proof (coding_uniques_length _ _ _ Hcod) as Hle.
  destruct Hcod as (Hlen & Hnd & _ & _ & Hmiss & Hpres & _).
  destruct (vs !! r) as [v|] eqn:Hv.
  - destruct (is_na v) eqn:Ena.
    + rewrite (Hmiss r v Hv Ena) in Hr. injection Hr as <-. lia.
    + destruct (Hpres r v Hv Ena) as (i' & w & Hc & Hu & Hk).
      rewrite Hc in Hr. injection Hr as <-.
      apply lookup_lt_Some in Hu. lia.
  - apply lookup_ge_None in Hv. apply lookup_lt_Some in Hr. lia.
Qed.

Lemma store_missing (dt : option dtype) : cell_code (store dt (-1)) = Some (-1).
Proof. destruct dt as [[]|]; vm_compute; reflexivity. Qed.

End CategorizeLoop.

Section CategorizeClaims.






End CategorizeClaims.

(** ** Rounding of [spec_float] operations below an integer bound *)

Section FloatRounding.

Local Open Scope Z_scope.

Variables prec emax : Z.
Hypothesis Hprec : 0 < prec.
Hypothesis Hemax : prec < emax.

Lemma digits2_pos_size (p : positive) : digits2_pos p = Pos.size p.
Proof. induction p; simpl; congruence. Qed.

Lemma Zdigits2_log2 (p : positive) :
  Zdigits2 (Zpos p) = Z.log2 (Zpos p) + 1.
Proof.
  simpl. rewrite digits2_pos_size. destruct p; simpl; lia.
Qed.

Lemma Zdigits2_bounds (p : positive) :
  2 ^ (Zdigits2 (Zpos p) - 1) <= Zpos p < 2 ^ Zdigits2 (Zpos p).
Proof.
  rewrite Zdigits2_log2.
  replace (Z.log2 (Zpos p) + 1 - 1) with (Z.log2 (Zpos p)) by lia.
  replace (Z.log2 (Zpos p) + 1) with (Z.succ (Z.log2 (Zpos p))) by lia.
  apply Z.log2_spec. lia.
Qed.

Lemma Zdigits2_nonneg (m : Z) : 0 <= Zdigits2 m.
Proof. destruct m; simpl; lia. Qed.

Lemma Zdigits2_lt_pow (m j : Z) :
  0 <= m -> 0 <= j -> m < 2 ^ j -> Zdigits2 m <= j.
Proof.
  intros Hm Hj Hlt. destruct m as [|p|p]; [simpl; lia| |lia].
  destruct (Z_le_gt_dec (Zdigits2 (Zpos p)) j) as [|Hgt]; [done|].
  pose proof (Zdigits2_bounds p) as [Hlo _].
  assert (2 ^ j <= 2 ^ (Zdigits2 (Zpos p) - 1))
    by (apply Z.pow_le_mono_r; lia).
  lia.
Qed.

Lemma Zdigits2_upper (m : Z) : 0 <= m -> m < 2 ^ Zdigits2 m.
Proof.
  intros Hm. destruct m as [|p|p]; [simpl; lia| |lia].
  apply Zdigits2_bounds.
Qed.

Lemma shr_1_spec (mrs : shr_record) :
  0 <= shr_m mrs ->
  shr_m (shr_1 mrs) = shr_m mrs / 2
  /\ inexact (shr_1 mrs) = inexact mrs || Z.odd (shr_m mrs).
Proof.
  destruct mrs as [m r s]. simpl. intros Hm. rewrite <- Z.div2_div.
  unfold inexact.
  destruct m as [|[p|p|]|p]; simpl; try lia;
    split; try reflexivity; destruct r, s; reflexivity.
Qed.

Lemma iter_pos_nat {A} (f : A -> A) (p : positive) (x : A) :
  SpecFloat.iter_pos f p x = Nat.iter (Pos.to_nat p) f x.
Proof.
  revert x. induction p as [p IH|p IH|]; intros x;
    cbn [SpecFloat.iter_pos].
  - rewrite !IH, Pos2Nat.inj_xI.
    replace (S (2 * Pos.to_nat p))
      with (Pos.to_nat p + (Pos.to_nat p + 1))%nat by lia.
    by rewrite !Nat.iter_add.
  - rewrite !IH, Pos2Nat.inj_xO.
    replace (2 * Pos.to_nat p)%nat
      with (Pos.to_nat p + Pos.to_nat p)%nat by lia.
    by rewrite Nat.iter_add.
  - done.
Qed.

(** One halving keeps a mantissa with its loss under an integer bound. *)
Lemma halve_bound (m K e : Z) (i : bool) :
  0 <= m -> e < 0 -> 0 <= K ->
  m + Z.b2z i <= K * 2 ^ (- e) ->
  m / 2 + Z.b2z (i || Z.odd m) <= K * 2 ^ (- (e + 1)).
Proof.
  intros Hm He HK Hb.
  replace (- e) with (Z.succ (- (e + 1))) in Hb by lia.
  rewrite Z.pow_succ_r in Hb by lia.
  rewrite <- Z.div2_div.
  pose proof (Z.div2_odd m) as Hd.
  destruct i, (Z.odd m); simpl in *; lia.
Qed.

Lemma shr_iter_bound (k : nat) :
  forall (mrs : shr_record) (K e : Z),
  0 <= shr_m mrs -> 0 <= K -> e + Z.of_nat k <= 0 ->
  shr_m mrs + Z.b2z (inexact mrs) <= K * 2 ^ (- e) ->
  0 <= shr_m (Nat.iter k shr_1 mrs)
  /\ shr_m (Nat.iter k shr_1 mrs) + Z.b2z (inexact (Nat.iter k shr_1 mrs))
     <= K * 2 ^ (- (e + Z.of_nat k)).
Proof.
  induction k as [|k IH]; intros mrs K e Hm HK He Hb.
  - simpl. by rewrite Z.add_0_r.
  - simpl. destruct (IH mrs K e Hm HK) as [Hm' Hb']; [lia|done|].
    destruct (shr_1_spec (Nat.iter k shr_1 mrs) Hm') as [-> ->].
    split; [apply Z.div_pos; lia|].
    replace (e + Z.of_nat (S k)) with (e + Z.of_nat k + 1) by lia.
    apply halve_bound; try done; lia.
Qed.

Lemma shr_iter_div (k : nat) (mrs : shr_record) :
  0 <= shr_m mrs ->
  shr_m (Nat.iter k shr_1 mrs) = shr_m mrs / 2 ^ Z.of_nat k.
Proof.
  intros Hm. induction k as [|k IH].
  - simpl. by rewrite Z.div_1_r.
  - simpl. destruct (shr_1_spec (Nat.iter k shr_1 mrs)) as [-> _].
    { rewrite IH. apply Z.div_pos; lia. }
    rewrite IH, Z.div_div by lia. f_equal.
    rewrite Nat2Z.inj_succ, Z.pow_succ_r; lia.
Qed.

(** [shr] by [n] places: the exponent moves by the places shifted, the
    mantissa is divided, and a bound on the value is kept. *)
Lemma shr_spec (mrs : shr_record) (e n : Z) :
  0 <= shr_m mrs ->
  let k := Z.max n 0 in
  snd (shr mrs e n) = e + k
  /\ shr_m (fst (shr mrs e n)) = shr_m mrs / 2 ^ k
  /\ 0 <= shr_m (fst (shr mrs e n))
  /\ forall K, 0 <= K -> e + k <= 0 ->
     shr_m mrs + Z.b2z (inexact mrs) <= K * 2 ^ (- e) ->
     shr_m (fst (shr mrs e n)) + Z.b2z (inexact (fst (shr mrs e n)))
     <= K * 2 ^ (- (e + k)).
Proof.
  intros Hm k. subst k. destruct n as [|p|p]; simpl.
  - rewrite Z.add_0_r, Z.div_1_r. repeat split; try done.
  - rewrite iter_pos_nat.
    replace (Z.max (Zpos p) 0) with (Z.of_nat (Pos.to_nat p)) by lia.
    rewrite shr_iter_div by done.
    split; [lia|]. split; [done|]. split; [apply Z.div_pos; lia|].
    intros K HK He Hb. rewrite <- shr_iter_div by done.
    by apply shr_iter_bound.
  - replace (Z.max (Zneg p) 0) with 0 by lia.
    rewrite Z.add_0_r, Z.div_1_r. repeat split; try done.
Qed.


Lemma shr_record_of_loc_spec (m : Z) (l : location) :
  shr_m (shr_record_of_loc m l) = m
  /\ inexact (shr_record_of_loc m l) = negb (is_exact l).
Proof. by destruct l as [|[]]. Qed.

Lemma round_nearest_even_bounds (mrs : shr_record) :
  shr_m mrs <= round_nearest_even (shr_m mrs) (loc_of_shr_record mrs)
            <= shr_m mrs + Z.b2z (inexact mrs).
Proof.
  destruct mrs as [m [] []]; unfold inexact; simpl;
    try destruct (Z.even m); lia.
Qed.

Lemma fexp_le_0 (m e K : Z) :
  0 <= m -> e <= 0 -> 0 <= K < 2 ^ prec -> m <= K * 2 ^ (- e) ->
  fexp prec emax (Zdigits2 m + e) <= 0.
Proof.
  intros Hm He HK Hb. unfold fexp, emin.
  apply Z.max_lub; [|lia].
  assert (Zdigits2 m <= prec - e); [|lia].
  apply Zdigits2_lt_pow; [done|lia|].
  replace (prec - e) with (prec + - e) by lia.
  rewrite Z.pow_add_r by lia.
  assert (0 < 2 ^ (- e)) by (apply Z.pow_pos_nonneg; lia).
  nia.
Qed.

(** The steps of [binary_round_aux] on a non-negative mantissa: a shift to
    the working exponent [e1], the rounding to [m1], a second shift to
    [e2] giving [m2]. *)
Lemma binary_round_aux_cases (sx : bool) (m e : Z) (l : location) :
  0 <= m ->
  exists m1 e1 m2 e2,
    e1 = e + Z.max (fexp prec emax (Zdigits2 m + e) - e) 0
    /\ 0 <= m1
    /\ e2 = e1 + Z.max (fexp prec emax (Zdigits2 m1 + e1) - e1) 0
    /\ m2 = m1 / 2 ^ (e2 - e1)
    /\ (forall K, 0 <= K -> e1 <= 0 ->
        m + Z.b2z (negb (is_exact l)) <= K * 2 ^ (- e) ->
        m1 <= K * 2 ^ (- e1))
    /\ binary_round_aux prec emax sx m e l
       = match m2 with
         | Z0 => S754_zero sx
         | Zpos p => if e2 <=? emax - prec then S754_finite sx p e2
                     else S754_infinity sx
         | Zneg _ => S754_nan
         end.
Proof.
  intros Hm. unfold binary_round_aux, shr_fexp.
  destruct (shr_record_of_loc_spec m l) as [Hm0 Hi0].
  pose proof (shr_spec (shr_record_of_loc m l) e
                (fexp prec emax (Zdigits2 m + e) - e)) as Hs1.
  rewrite Hm0 in Hs1. specialize (Hs1 Hm). cbv zeta in Hs1.
  destruct (shr (shr_record_of_loc m l) e
              (fexp prec emax (Zdigits2 m + e) - e)) as [mrs1 e1] eqn:E1.
  cbn [fst snd] in Hs1. destruct Hs1 as (He1 & Hd1 & Hp1 & Hb1).
  set (m1 := round_nearest_even (shr_m mrs1) (loc_of_shr_record mrs1)).
  pose proof (round_nearest_even_bounds mrs1) as Hr. fold m1 in Hr.
  destruct (shr_record_of_loc_spec m1 loc_Exact) as [Hm2 Hi2].
  pose proof (shr_spec (shr_record_of_loc m1 loc_Exact) e1
                (fexp prec emax (Zdigits2 m1 + e1) - e1)) as Hs2.
  rewrite Hm2 in Hs2. specialize (Hs2 ltac:(lia)). cbv zeta in Hs2.
  destruct (shr (shr_record_of_loc m1 loc_Exact) e1
              (fexp prec emax (Zdigits2 m1 + e1) - e1)) as [mrs2 e2] eqn:E2.
  cbn [fst snd] in Hs2. destruct Hs2 as (He2 & Hd2 & Hp2 & Hb2).
  exists m1, e1, (shr_m mrs2), e2.
  split; [done|]. split; [lia|]. split; [done|].
  split; [rewrite Hd2; f_equal; f_equal; lia|]. split; [|done].
  intros K HK Hle Hb. rewrite Hi0 in Hb1.
  specialize (Hb1 K HK ltac:(lia) Hb). rewrite <- He1 in Hb1. lia.
Qed.

(** Rounding a value that is at most the integer [K], with exponent at
    most 0, gives a float that is at most [K]. *)
Lemma binary_round_aux_bound (sx : bool) (m e : Z) (l : location) (K : Z) :
  0 <= m -> e <= 0 -> 0 <= K < 2 ^ prec ->
  m + Z.b2z (negb (is_exact l)) <= K * 2 ^ (- e) ->
  binary_round_aux prec emax sx m e l = S754_zero sx
  \/ exists m' e',
       binary_round_aux prec emax sx m e l = S754_finite sx m' e'
       /\ e' <= 0 /\ Zpos m' <= K * 2 ^ (- e') /\ Zpos m' < 2 ^ prec.
Proof using Hprec Hemax.
  intros Hm He HK Hb.
  destruct (binary_round_aux_cases sx m e l Hm)
    as (m1 & e1 & m2 & e2 & He1 & Hm1 & He2 & Hm2 & Hbound & ->).
  assert (Hle1 : e1 <= 0).
  { assert (fexp prec emax (Zdigits2 m + e) <= 0); [|lia].
    apply (fexp_le_0 m e K); try done.
    destruct (is_exact l); simpl in Hb; lia. }
  specialize (Hbound K ltac:(lia) Hle1 Hb).
  assert (Hle2 : e2 <= 0).
  { assert (fexp prec emax (Zdigits2 m1 + e1) <= 0); [|lia].
    by apply (fexp_le_0 m1 e1 K). }
  assert (Hk : 0 <= e2 - e1) by lia.
  assert (Hpow : 0 < 2 ^ (e2 - e1)) by (apply Z.pow_pos_nonneg; lia).
  assert (Hm2K : m2 <= K * 2 ^ (- e2)).
  { subst m2. apply Z.div_le_upper_bound; [done|].
    replace (- e1) with ((e2 - e1) + - e2) in Hbound by lia.
    rewrite Z.pow_add_r in Hbound by lia. lia. }
  assert (Hm2p : m2 < 2 ^ prec).
  { subst m2. apply Z.div_lt_upper_bound; [done|].
    rewrite <- Z.pow_add_r by lia.
    pose proof (Zdigits2_upper m1 Hm1) as Hup.
    assert (2 ^ Zdigits2 m1 <= 2 ^ (e2 - e1 + prec)); [|lia].
    apply Z.pow_le_mono_r; [lia|].
    unfold fexp in He2. lia. }
  assert (Hm2n : 0 <= m2) by (subst m2; apply Z.div_pos; lia).
  destruct m2 as [|p|p]; [by left| |lia].
  right. exists p, e2.
  replace (e2 <=? emax - prec) with true
    by (symmetry; apply Z.leb_le; lia).
  done.
Qed.

(** Whatever is rounded, the result carries the sign given, and a finite
    result has a mantissa of at most [prec] digits. *)
Lemma binary_round_aux_shape (sx : bool) (m e : Z) (l : location) :
  0 <= m ->
  binary_round_aux prec emax sx m e l = S754_zero sx
  \/ binary_round_aux prec emax sx m e l = S754_infinity sx
  \/ exists m' e',
       binary_round_aux prec emax sx m e l = S754_finite sx m' e'
       /\ Zpos m' < 2 ^ prec.
Proof using Hprec Hemax.
  intros Hm.
  destruct (binary_round_aux_cases sx m e l Hm)
    as (m1 & e1 & m2 & e2 & He1 & Hm1 & He2 & Hm2 & _ & ->).
  assert (Hk : 0 <= e2 - e1) by lia.
  assert (Hpow : 0 < 2 ^ (e2 - e1)) by (apply Z.pow_pos_nonneg; lia).
  assert (Hm2p : m2 < 2 ^ prec).
  { subst m2. apply Z.div_lt_upper_bound; [done|].
    rewrite <- Z.pow_add_r by lia.
    pose proof (Zdigits2_upper m1 Hm1) as Hup.
    assert (2 ^ Zdigits2 m1 <= 2 ^ (e2 - e1 + prec)); [|lia].
    apply Z.pow_le_mono_r; [lia|].
    unfold fexp in He2. lia. }
  assert (Hm2n : 0 <= m2) by (subst m2; apply Z.div_pos; lia).
  destruct m2 as [|p|p]; [by left| |lia].
  destruct (e2 <=? emax - prec); [|by right; left].
  right; right. by exists p, e2.
Qed.


Lemma Zdigits2_unique (p : positive) (j : Z) :
  2 ^ (j - 1) <= Zpos p < 2 ^ j -> Zdigits2 (Zpos p) = j.
Proof.
  intros [Hlo Hhi]. rewrite Zdigits2_log2.
  assert (0 < j).
  { destruct (Z_lt_le_dec 0 j) as [|Hj]; [done|].
    assert (2 ^ j <= 2 ^ 0) by (apply Z.pow_le_mono_r; lia).
    simpl in *. lia. }
  rewrite (Z.log2_unique (Zpos p) (j - 1)); [lia|lia|].
  by replace (Z.succ (j - 1)) with j by lia.
Qed.

Lemma iter_xO_pow (p d : positive) :
  Zpos (Pos.iter xO p d) = Zpos p * 2 ^ Zpos d.
Proof.
  induction d as [|d IH] using Pos.peano_ind.
  - simpl. lia.
  - rewrite Pos.iter_succ, Pos2Z.inj_xO, IH, Pos2Z.inj_succ.
    rewrite Z.pow_succ_r by lia. lia.
Qed.

Lemma shl_align_spec (mx : positive) (ex ex' : Z) :
  ex' <= ex ->
  snd (shl_align mx ex ex') = ex'
  /\ Zpos (fst (shl_align mx ex ex')) = Zpos mx * 2 ^ (ex - ex').
Proof.
  intros Hle. unfold shl_align.
  destruct (ex' - ex) as [|d|d] eqn:E; [|lia|]; cbn [fst snd].
  - assert (ex' = ex) as -> by lia. rewrite Z.sub_diag. simpl. lia.
  - split; [done|]. rewrite iter_xO_pow. do 2 f_equal. lia.
Qed.

(** A mantissa already at its working exponent is left as it is. *)
Lemma binary_round_aux_canonical (s : bool) (mz : positive) (ez : Z) :
  fexp prec emax (Zdigits2 (Zpos mz) + ez) = ez ->
  ez <= emax - prec ->
  binary_round_aux prec emax s (Zpos mz) ez loc_Exact = S754_finite s mz ez.
Proof.
  intros Hf Hle. unfold binary_round_aux, shr_fexp.
  cbn [shr_record_of_loc]. rewrite Hf, Z.sub_diag.
  cbn [shr shr_m loc_of_shr_record round_nearest_even shr_record_of_loc].
  rewrite Hf, Z.sub_diag. cbn [shr shr_m].
  by replace (ez <=? emax - prec) with true by (symmetry; apply Z.leb_le; lia).
Qed.

(** An integer of at most [prec] digits converts to a float without
    rounding: the mantissa is the integer moved up to [prec] digits. *)
Lemma binary_round_int_exact (s : bool) (p : positive) :
  Zpos p < 2 ^ prec ->
  exists mz ez,
    binary_round prec emax s p 0 = S754_finite s mz ez
    /\ ez = Zdigits2 (Zpos p) - prec
    /\ ez <= 0
    /\ Zpos mz = Zpos p * 2 ^ (- ez)
    /\ Zpos mz < 2 ^ prec.
Proof using Hprec Hemax.
  intros Hp. unfold binary_round.
  pose proof (Zdigits2_bounds p) as [Hlo Hhi].
  assert (Hd : Zdigits2 (Zpos p) <= prec)
    by (apply Zdigits2_lt_pow; lia).
  assert (Hd1 : 1 <= Zdigits2 (Zpos p)).
  { rewrite Zdigits2_log2. pose proof (Z.log2_nonneg (Zpos p)). lia. }
  assert (Hfe : fexp prec emax (Zpos (digits2_pos p) + 0)
                = Zdigits2 (Zpos p) - prec).
  { unfold fexp, emin. simpl Zdigits2 in *. lia. }
  rewrite Hfe.
  destruct (shl_align_spec p 0 (Zdigits2 (Zpos p) - prec)) as [He Hm]; [lia|].
  destruct (shl_align p 0 (Zdigits2 (Zpos p) - prec)) as [mz ez].
  cbn [fst snd] in He, Hm. subst ez.
  replace (0 - (Zdigits2 (Zpos p) - prec))
    with (prec - Zdigits2 (Zpos p)) in Hm by lia.
  assert (Hpow : 2 ^ prec
                 = 2 ^ Zdigits2 (Zpos p) * 2 ^ (prec - Zdigits2 (Zpos p))).
  { rewrite <- Z.pow_add_r by lia. f_equal. lia. }
  assert (Hpow1 : 2 ^ (prec - 1)
            = 2 ^ (Zdigits2 (Zpos p) - 1) * 2 ^ (prec - Zdigits2 (Zpos p))).
  { rewrite <- Z.pow_add_r by lia. f_equal. lia. }
  assert (Hpos : 0 < 2 ^ (prec - Zdigits2 (Zpos p)))
    by (apply Z.pow_pos_nonneg; lia).
  assert (Hmz : 2 ^ (prec - 1) <= Zpos mz < 2 ^ prec) by nia.
  exists mz, (Zdigits2 (Zpos p) - prec).
  split; [|split; [done|split; [lia|split; [|lia]]]].
  - apply binary_round_aux_canonical; [|lia].
    rewrite (Zdigits2_unique mz prec Hmz). unfold fexp, emin. lia.
  - rewrite Hm. do 2 f_equal. lia.
Qed.

End FloatRounding.

Section Float64.

Local Open Scope Z_scope.

(** [float(z)] is exact for an integer of at most 53 digits. *)
Lemma float_of_int_exact (z : Z) :
  0 < z < 2 ^ 53 ->
  exists mz ez,
    float_of_int z = S754_finite false mz ez
    /\ ez = Zdigits2 z - 53
    /\ ez <= 0
    /\ Zpos mz = z * 2 ^ (- ez)
    /\ Zpos mz < 2 ^ 53.
Proof.
  intros [Hz Hlt]. destruct z as [|p|p]; try lia.
  unfold float_of_int, binary_normalize.
  apply (binary_round_int_exact prec64 emax64); unfold prec64, emax64; lia.
Qed.

Lemma float_of_int_0 : float_of_int 0 = S754_zero false.
Proof. reflexivity. Qed.

End Float64.

(** ** The sampling fraction of [negative_down_sample] as a float *)

Section Fraction.

Local Open Scope Z_scope.

Lemma prec64_pos : 0 < prec64.
Proof. reflexivity. Qed.

Lemma emax64_gt : prec64 < emax64.
Proof. reflexivity. Qed.

Lemma new_location_exact (nb r : Z) : r = 0 -> is_exact (new_location nb r) = true.
Proof.
  intros ->. unfold new_location, new_location_even, new_location_odd.
  by destruct (Z.even nb).
Qed.

(** The quotient computed by [SFdiv_core_binary], with its remainder. *)
Lemma SFdiv_core_binary_spec (m1 m2 : positive) (e1 e2 : Z) :
  exists q e' l r,
    SFdiv_core_binary prec64 emax64 (Zpos m1) e1 (Zpos m2) e2 = (q, e', l)
    /\ e' <= e1 - e2
    /\ 0 <= q
    /\ 0 <= r < Zpos m2
    /\ Zpos m1 * 2 ^ (e1 - e2 - e') = q * Zpos m2 + r
    /\ (r = 0 -> is_exact l = true).
Proof.
  unfold SFdiv_core_binary.
  set (e' := Z.min _ (e1 - e2)).
  assert (He' : e' <= e1 - e2) by apply Z.le_min_r.
  set (s := e1 - e2 - e').
  assert (Hs : 0 <= s) by (subst s; lia).
  set (m' := match s with
             | Z0 => Zpos m1
             | Zpos _ => Z.shiftl (Zpos m1) s
             | Zneg _ => 0
             end).
  assert (Hm' : m' = Zpos m1 * 2 ^ s).
  { subst m'. destruct s as [|p|p] eqn:Es; [simpl; lia| |lia].
    by rewrite Z.shiftl_mul_pow2. }
  pose proof (Z_div_mod m' (Zpos m2) ltac:(lia)) as Hdm.
  destruct (Z.div_eucl m' (Zpos m2)) as [q r]. destruct Hdm as [Hdm Hr].
  exists q, e', (new_location (Zpos m2) r), r.
  assert (0 < 2 ^ s) by (apply Z.pow_pos_nonneg; lia).
  split; [done|]. split; [done|]. split; [|split; [done|]].
  - destruct (Z_lt_le_dec q 0) as [Hneg|]; [|done].
    assert (Zpos m2 * q <= - Zpos m2) by nia. lia.
  - split; [|apply new_location_exact].
    change (e1 - e2 - e') with s. rewrite <- Hm', Hdm. ring.
Qed.

Lemma Zdigits2_mono (a n : Z) : 0 <= a <= n -> Zdigits2 a <= Zdigits2 n.
Proof.
  intros [Ha Han]. apply Zdigits2_lt_pow; [done|apply Zdigits2_nonneg|].
  pose proof (Zdigits2_upper n ltac:(lia)). lia.
Qed.

(** The positive fraction: [float(a) / n] is at most 1 when [a <= n]. *)
Lemma fdiv_ratio_at_most_1 (a n : Z) :
  0 <= a <= n -> 0 < n < 2 ^ 53 ->
  at_most (fdiv (float_of_int a) (float_of_int n)) 1.
Proof.
  intros [Ha Han] Hn.
  destruct (float_of_int_exact n Hn) as (mn & en & -> & Hen & Hen0 & Hmn & Hmnp).
  destruct (Z.eq_dec a 0) as [->|Hne]; [by left|].
  destruct (float_of_int_exact a ltac:(lia))
    as (ma & ea & -> & Hea & Hea0 & Hma & Hmap).
  unfold fdiv, SFdiv.
  destruct (SFdiv_core_binary_spec ma mn ea en)
    as (q & e' & l & r & -> & He' & Hq & Hr & Heq & Hex).
  pose proof (Zdigits2_mono a n ltac:(lia)) as Hdig.
  assert (He0 : e' <= 0) by lia.
  destruct (binary_round_aux_bound prec64 emax64 prec64_pos emax64_gt
              (xorb false false) q e' l 1 Hq He0) as [Hz|Hfin].
  - unfold prec64. lia.
  - (* q with its loss is at most 2 ^ (- e') *)
    rewrite Z.mul_1_l.
    assert (Hp1 : 2 ^ (- ea) * 2 ^ (ea - en - e') = 2 ^ (- en - e'))
      by (rewrite <- Z.pow_add_r by lia; f_equal; lia).
    assert (Hp2 : 2 ^ (- en) * 2 ^ (- e') = 2 ^ (- en - e'))
      by (rewrite <- Z.pow_add_r by lia; f_equal; lia).
    assert (Hpe : 0 < 2 ^ (- e')) by (apply Z.pow_pos_nonneg; lia).
    assert (Hpen : 0 < 2 ^ (- en - e')) by (apply Z.pow_pos_nonneg; lia).
    assert (Hle : q * Zpos mn + r <= Zpos mn * 2 ^ (- e')).
    { rewrite <- Heq, Hma, Hmn.
      rewrite <- !Z.mul_assoc, Hp1, Hp2. nia. }
    destruct (Z.eq_dec r 0) as [Hr0|Hr0].
    + rewrite (Hex Hr0). simpl. nia.
    + assert (q < 2 ^ (- e')) by nia.
      destruct (is_exact l); simpl; lia.
  - by left.
  - right. destruct Hfin as (m' & e'' & -> & ? & ? & ?).
    exists m', e''. by rewrite Z.mul_1_l in *.
Qed.

Lemma fone_eq : fone = S754_finite false 4503599627370496 (-52).
Proof. reflexivity. Qed.

Lemma fsub_one_shape (p : spec_float) :
  at_most p 1 -> sign_free (fsub fone p).
Proof.
  intros [->|(mp & ep & -> & Hep & Hmp & Hmpp)].
  - right; right. eexists _, _. split; [reflexivity|]. done.
  - rewrite fone_eq. unfold fsub, SFsub. cbv zeta.
    set (ez := Z.min (-52) ep).
    destruct (shl_align_spec 4503599627370496 (-52) ez) as [_ HA];
      [subst ez; lia|].
    destruct (shl_align_spec mp ep ez) as [_ HB]; [subst ez; lia|].
    simpl cond_Zopp. rewrite HA, HB.
    assert (Hge : Zpos mp * 2 ^ (ep - ez)
                  <= 4503599627370496 * 2 ^ (-52 - ez)).
    { change 4503599627370496 with (2 ^ 52).
      rewrite <- Z.pow_add_r by (subst ez; lia).
      replace (52 + (-52 - ez)) with (- ep + (ep - ez)) by lia.
      rewrite Z.pow_add_r by (subst ez; lia).
      assert (0 < 2 ^ (ep - ez))
        by (apply Z.pow_pos_nonneg; subst ez; lia).
      rewrite Z.mul_1_l in Hmp. nia. }
    destruct (4503599627370496 * 2 ^ (-52 - ez) - Zpos mp * 2 ^ (ep - ez))
      as [|d|d] eqn:Ed; [by left| |lia].
    unfold binary_normalize, binary_round.
    destruct (shl_align d ez _) as [mz ez'].
    destruct (binary_round_aux_shape prec64 emax64 prec64_pos emax64_gt
                false (Zpos mz) ez' loc_Exact ltac:(lia))
      as [->|[->|(m' & e' & -> & Hm')]].
    + by left.
    + by right; left.
    + right; right. by exists m', e'.
Qed.

Lemma frac_shape (p q : spec_float) :
  at_most p 1 -> sign_free q -> SFeqb q fzero = false ->
  sign_free (fdiv p q).
Proof.
  intros Hp Hq Hq0.
  destruct Hq as [->|[->|(mq & eq & -> & Hmq)]]; [done| |].
  - destruct Hp as [->|(mp & ep & -> & _)]; [|by left].
    (* 0 / inf *) by left.
  - destruct Hp as [->|(mp & ep & -> & _)]; [by left|].
    unfold fdiv, SFdiv.
    destruct (SFdiv_core_binary_spec mp mq ep eq)
      as (q & e' & l & r & -> & _ & Hq & _).
    destruct (binary_round_aux_shape prec64 emax64 prec64_pos emax64_gt
                (xorb false false) q e' l Hq)
      as [->|[->|(m' & e'' & -> & Hm')]].
    + by left.
    + by right; left.
    + right; right. by exists m', e''.
Qed.

(** Comparing mantissas is comparing the integers they are. *)
Lemma compare_cont_Z (m c : positive) :
  PosDef.Pos.compare_cont Eq m c = (Zpos m ?= Zpos c).
Proof. reflexivity. Qed.

Lemma leb_one_at_most (x : spec_float) :
  sign_free x -> SFleb x fone = true -> at_most x 1.
Proof.
  intros [->|[->|(m & e & -> & Hm)]] Hle; [by left|done|].
  right. exists m, e. split; [done|].
  rewrite fone_eq in Hle. unfold SFleb, SFcompare in Hle.
  destruct (Z.compare_spec e (-52)) as [->|Hlt|Hgt]; [| |done].
  - split; [lia|]. split; [|done].
    rewrite compare_cont_Z in Hle.
    change (1 * 2 ^ (- (-52))) with (Zpos 4503599627370496).
    destruct (Z.compare_spec (Zpos m) (Zpos 4503599627370496))
      as [Heq|Hlt|Hgt]; [lia|lia|done].
  - split; [lia|]. split; [|done]. rewrite Z.mul_1_l.
    assert (2 ^ 53 <= 2 ^ (- e)) by (apply Z.pow_le_mono_r; lia). lia.
Qed.

(** A fraction found to be at most 1 passes the two checks of [sample]. *)
Lemma leb_one_checks (x : spec_float) :
  sign_free x -> SFleb x fone = true ->
  SFltb fone x = false /\ SFltb x fzero = false.
Proof.
  intros [->|[->|(m & e & -> & Hm)]] Hle; [done|done|].
  split; [|done].
  rewrite fone_eq in *. unfold SFleb, SFcompare in Hle.
  unfold SFltb, SFcompare.
  rewrite (Z.compare_antisym e (-52)).
  destruct (e ?= -52) eqn:Ec; cbn [CompOpp] in *; [|done|done].
  rewrite compare_cont_Z in *.
  rewrite (Z.compare_antisym (Zpos m) (Zpos 4503599627370496)).
  by destruct (Zpos m ?= Zpos 4503599627370496).
Qed.

Lemma round_half_even_bound (m e K : Z) :
  0 <= m -> e <= 0 -> m <= K * 2 ^ (- e) ->
  0 <= round_half_even m e <= K.
Proof.
  intros Hm He Hb. unfold round_half_even.
  destruct e as [|p|p]; [simpl in *; lia|lia|].
  change (- Zneg p) with (Zpos p) in Hb.
  assert (Hd : 0 < 2 ^ Zpos p) by (apply Z.pow_pos_nonneg; lia).
  pose proof (Z.div_mod m (2 ^ Zpos p) ltac:(lia)) as Hdm.
  pose proof (Z.mod_pos_bound m (2 ^ Zpos p) Hd) as Hr.
  assert (Hq : 0 <= m / 2 ^ Zpos p) by (apply Z.div_pos; lia).
  assert (HqK : m / 2 ^ Zpos p <= K) by nia.
  assert (Hup : 0 < m mod 2 ^ Zpos p -> m / 2 ^ Zpos p + 1 <= K) by nia.
  destruct (Z.compare_spec (2 * (m mod 2 ^ Zpos p)) (2 ^ Zpos p));
    [destruct (Z.even _)|..]; lia.
Qed.

(** The number of rows [sample] asks for, for a fraction of at most 1 of
    [L] rows: [round(frac * L)] is an integer between 0 and [L]. *)
Lemma sample_size_bound (frac : spec_float) (L : Z) :
  at_most frac 1 -> 0 <= L < 2 ^ 53 ->
  exists size,
    py_round (fmul frac (float_of_int L)) = Ok size /\ 0 <= size <= L.
Proof.
  intros Hfrac [HL0 HL].
  destruct (Z.eq_dec L 0) as [->|HLne].
  { exists 0. rewrite float_of_int_0.
    destruct Hfrac as [->|(mf & ef & -> & _)]; by split. }
  destruct (float_of_int_exact L ltac:(lia))
    as (ml & el & -> & Hel & Hel0 & Hml & Hmlp).
  destruct Hfrac as [->|(mf & ef & -> & Hef & Hmf & Hmfp)].
  { exists 0. split; [done|lia]. }
  unfold fmul, SFmul.
  rewrite Z.mul_1_l in Hmf.
  assert (Hpow : 2 ^ (- (ef + el)) = 2 ^ (- ef) * 2 ^ (- el))
    by (rewrite <- Z.pow_add_r by lia; f_equal; lia).
  destruct (binary_round_aux_bound prec64 emax64 prec64_pos emax64_gt
              (xorb false false) (Zpos (mf * ml)) (ef + el) loc_Exact L)
    as [->|(m' & e' & -> & He' & Hm' & _)].
  - lia.
  - lia.
  - unfold prec64. lia.
  - simpl Z.b2z. rewrite Z.add_0_r, Pos2Z.inj_mul, Hpow, Hml.
    assert (0 < 2 ^ (- el)) by (apply Z.pow_pos_nonneg; lia).
    nia.
  - exists 0. split; [done|lia].
  - simpl. eexists. split; [reflexivity|].
    apply round_half_even_bound; [lia|done|done].
Qed.

End Fraction.

(** ** Storage types keep the codes of columns within their capacity *)

Section Storage.

Local Open Scope Z_scope.

Lemma float_to_int_exact (s : bool) (mz : positive) (ez z : Z) :
  ez <= 0 -> Zpos mz = z * 2 ^ (- ez) ->
  float_to_int (S754_finite s mz ez) = Some (cond_Zopp s z).
Proof.
  intros He Hm. unfold float_to_int.
  destruct ez as [|p|p]; [|lia|].
  - simpl in *. do 2 f_equal. lia.
  - change (- Zneg p) with (Zpos p) in Hm.
    assert (0 < 2 ^ Zpos p) by (apply Z.pow_pos_nonneg; lia).
    rewrite Hm, Z.mod_mul, Z.div_mul by lia. done.
Qed.

Lemma float_round_trip (prec emax : Z) (z : Z) :
  0 < prec -> prec < emax -> - 2 ^ prec < z < 2 ^ prec ->
  float_to_int (binary_normalize prec emax z 0 false) = Some z.
Proof.
  intros Hprec Hemax Hz. destruct z as [|p|p]; [done|..].
  - simpl binary_normalize.
    destruct (binary_round_int_exact prec emax Hprec Hemax false p)
      as (mz & ez & -> & _ & He & Hm & _); [lia|].
    by rewrite (float_to_int_exact false mz ez (Zpos p)).
  - simpl binary_normalize.
    destruct (binary_round_int_exact prec emax Hprec Hemax true p)
      as (mz & ez & -> & _ & He & Hm & _); [lia|].
    by rewrite (float_to_int_exact true mz ez (Zpos p)).
Qed.

Lemma wrap_small (bits z : Z) :
  0 < bits -> - 2 ^ (bits - 1) <= z < 2 ^ (bits - 1) -> wrap bits z = z.
Proof.
  intros Hb Hz. unfold wrap.
  assert (2 ^ bits = 2 * 2 ^ (bits - 1)).
  { rewrite <- Z.pow_succ_r by lia. f_equal. lia. }
  rewrite Z.mod_small by lia. lia.
Qed.

(** Every storage type of the model keeps the codes of a column that is
    within its capacity. *)
Lemma holds_codes_capacity (dt : option dtype) (n : nat) :
  within_capacity dt n -> holds_codes dt n.
Proof.
  intros Hcap i Hi. destruct dt as [d|]; [|done].
  destruct d; simpl in *.
  - done.
  - unfold float32_of_int. apply float_round_trip; lia.
  - unfold float_of_int, prec64, emax64. apply float_round_trip; lia.
  - f_equal. apply wrap_small; lia.
  - f_equal. apply wrap_small; lia.
Qed.

End Storage.

(** ** [negative_down_sample] *)

Section Rows.

Lemma where_from_elem (i : nat) (mask : list bool) (k : nat) :
  k ∈ where_from i mask
  <-> exists j, k = (i + j)%nat /\ mask !! j = Some true.
Proof.
  revert i. induction mask as [|b mask IH]; intros i; simpl.
  - split; [by intros ?%elem_of_nil|]. by intros (j & _ & ?).
  - rewrite elem_of_app, IH. split.
    + intros [Hk|(j & -> & Hj)].
      * destruct b; [|by apply elem_of_nil in Hk].
        apply list_elem_of_singleton in Hk as ->.
        exists 0%nat. split; [lia|done].
      * exists (S j). split; [lia|done].
    + intros ([|j] & -> & Hj); simpl in Hj.
      * injection Hj as ->. left. rewrite Nat.add_0_r. left.
      * right. exists j. split; [lia|done].
Qed.

Lemma where_from_NoDup (i : nat) (mask : list bool) :
  NoDup (where_from i mask).
Proof.
  revert i. induction mask as [|b mask IH]; intros i; simpl; [constructor|].
  apply NoDup_app. split; [|split; [|apply IH]].
  - destruct b; [apply NoDup_singleton|constructor].
  - intros k Hk Hk'. destruct b; [|by apply elem_of_nil in Hk].
    apply list_elem_of_singleton in Hk as ->.
    apply where_from_elem in Hk' as (j & ? & _). lia.
Qed.

Lemma where_from_length (i : nat) (vs : list cell) (f : cell -> bool) :
  length (where_from i (map f vs))
  = length (filter (fun x => f x = true) vs).
Proof.
  revert i. induction vs as [|v vs IH]; intros i; simpl; [done|].
  rewrite length_app, IH, filter_cons.
  destruct (decide (f v = true)) as [->|Hf]; simpl; [done|].
  by destruct (f v).
Qed.

Lemma pick_elem {A} (pos : list nat) (l : list A) (x : A) :
  x ∈ pick pos l <-> exists i, i ∈ pos /\ l !! i = Some x.
Proof. unfold pick. apply list_elem_of_omap. Qed.

Lemma pick_length_le {A} (pos : list nat) (l : list A) :
  (length (pick pos l) <= length pos)%nat.
Proof.
  unfold pick. induction pos as [|i pos IH]; csimpl; [done|].
  destruct (l !! i); csimpl; lia.
Qed.

Lemma pick_length {A} (pos : list nat) (l : list A) :
  Forall (fun i => (i < length l)%nat) pos ->
  length (pick pos l) = length pos.
Proof.
  unfold pick. induction 1 as [|i pos Hi _ IH]; csimpl; [done|].
  apply lookup_lt_is_Some in Hi as [x ->]. csimpl. by rewrite IH.
Qed.

Lemma pick_NoDup {A} (pos : list nat) (l : list A) :
  NoDup pos -> NoDup l -> NoDup (pick pos l).
Proof.
  intros Hpos Hl. unfold pick.
  induction Hpos as [|i pos Hi _ IH]; csimpl; [constructor|].
  destruct (l !! i) as [x|] eqn:Hx; csimpl; [|done].
  constructor; [|done].
  intros Hin. apply list_elem_of_omap in Hin as (j & Hj & Hlj).
  assert (i = j) as -> by (apply (NoDup_lookup l i j x); done).
  done.
Qed.

Lemma draw_cons (rs : random_state) (p : nat) (pool' : list nat) (n : nat) :
  draw rs (p :: pool') (S n)
  = default p ((p :: pool') !! (hd 0 rs mod length (p :: pool'))%nat)
      :: draw (tl rs)
           (delete (hd 0 rs mod length (p :: pool'))%nat (p :: pool')) n.
Proof. reflexivity. Qed.

(** A draw without replacement: distinct elements of the pool, as many as
    asked for while the pool lasts. *)
Lemma draw_spec (n : nat) :
  forall (rs : random_state) (pool : list nat),
  NoDup pool ->
  NoDup (draw rs pool n)
  /\ (forall x, x ∈ draw rs pool n -> x ∈ pool)
  /\ length (draw rs pool n) = Nat.min n (length pool).
Proof.
  induction n as [|n IH]; intros rs pool Hnd.
  - simpl. split; [constructor|]. split; [by intros ? ?%elem_of_nil|done].
  - destruct pool as [|p pool'].
    { simpl. split; [constructor|]. split; [by intros ? ?%elem_of_nil|done]. }
    rewrite draw_cons.
    set (pool := p :: pool') in *.
    set (i := (hd 0 rs mod length pool)%nat).
    assert (Hi : (i < length pool)%nat)
      by (apply Nat.mod_upper_bound; simpl; lia).
    destruct (lookup_lt_is_Some_2 pool i Hi) as [x Hx].
    rewrite Hx. cbn [default from_option].
    pose proof (delete_Permutation pool i x Hx) as Hperm.
    assert (Hnd2 : NoDup (x :: delete i pool)) by (by rewrite <- Hperm).
    apply NoDup_cons in Hnd2 as [Hx' Hnd'].
    destruct (IH (tl rs) (delete i pool) Hnd') as (IH1 & IH2 & IH3).
    split; [|split].
    + constructor; [|done]. intros Hin. by apply Hx', IH2.
    + intros y [->|Hy]%elem_of_cons.
      * by eapply list_elem_of_lookup_2.
      * by eapply list_elem_of_delete_inv, IH2.
    + cbn [length]. rewrite IH3, length_delete by eauto.
      subst pool. cbn [length]. lia.
Qed.

Lemma getitem_elem (df : DataFrame) (c : string) (s : Series) :
  getitem df c = Ok s -> s ∈ columns df.
Proof.
  unfold getitem, find_key. intros H.
  destruct (list_find (fun y => name y = c) (columns df)) as [[i s']|] eqn:E;
    [|done].
  simpl in H. injection H as <-.
  apply list_find_Some in E as (Hl & _). by eapply list_elem_of_lookup_2.
Qed.

Lemma rows_equal_ok (data : DataFrame) (target : string) (v : cell)
    (s : Series) :
  getitem data target = Ok s ->
  rows_equal data target v
  = Ok (take_rows data
          (where_from 0 (map (fun x => cell_eqb x v) (values s)))).
Proof. intros H. unfold rows_equal. by rewrite H. Qed.

(** The rows selected by an equality test, by label. *)
Lemma pick_where_elem (data : DataFrame) (s : Series) (v : cell) (l : Z) :
  l ∈ pick (where_from 0 (map (fun x => cell_eqb x v) (values s)))
        (index data)
  <-> row_has data s v l.
Proof.
  rewrite pick_elem. unfold row_has. split.
  - intros (i & Hi & Hl). apply where_from_elem in Hi as (j & -> & Hj).
    simpl in *. change (map ?f ?l) with (f <$> l) in Hj.
    rewrite list_lookup_fmap in Hj.
    destruct (values s !! j) as [x|] eqn:Hx; [|done].
    injection Hj as Hj. by exists j, x.
  - intros (i & x & Hl & Hx & Heq). exists i. split; [|done].
    apply where_from_elem. exists i. split; [done|].
    change (map ?f ?l) with (f <$> l).
    by rewrite list_lookup_fmap, Hx, <- Heq.
Qed.

Lemma where_in_range (i : nat) (mask : list bool) :
  Forall (fun k => (k < i + length mask)%nat) (where_from i mask).
Proof.
  apply Forall_forall. intros k (j & -> & Hj)%where_from_elem.
  apply lookup_lt_Some in Hj. lia.
Qed.

Lemma Index_union_spec (a b : list Z) :
  NoDup a -> NoDup b ->
  NoDup (Index_union a b)
  /\ forall l, l ∈ Index_union a b <-> l ∈ a \/ l ∈ b.
Proof.
  intros Ha Hb. unfold Index_union.
  case_bool_decide as H1.
  - split; [done|]. intros l. destruct H1 as [->| ->]; [|tauto].
    split; [tauto|]. intros [?|?%elem_of_nil]; done.
  - case_bool_decide as H2.
    + subst a. split; [done|]. intros l.
      split; [tauto|]. intros [?%elem_of_nil|?]; done.
    + split.
      * rewrite merge_sort_Permutation. apply NoDup_remove_dups.
      * intros l. rewrite merge_sort_Permutation, elem_of_remove_dups.
        apply elem_of_app.
Qed.

Lemma sorted_lt_of_le (l : list Z) :
  StronglySorted Z.le l -> NoDup l -> StronglySorted Z.lt l.
Proof.
  induction 1 as [|x l Hs IH Hall]; intros Hnd; [constructor|].
  apply NoDup_cons in Hnd as [Hx Hnd].
  constructor; [by apply IH|].
  rewrite Forall_forall in *. intros y Hy.
  specialize (Hall y Hy). assert (x <> y) by (by intros ->). lia.
Qed.

Lemma sort_values_spec (a : list Z) :
  NoDup a ->
  StronglySorted Z.lt (sort_values a)
  /\ forall l, l ∈ sort_values a <-> l ∈ a.
Proof.
  intros Ha. unfold sort_values. split.
  - apply sorted_lt_of_le.
    + apply StronglySorted_merge_sort; apply _.
    + by rewrite merge_sort_Permutation.
  - intros l. by rewrite merge_sort_Permutation.
Qed.

Lemma positions_of_unique (df : DataFrame) (l : Z) (i : nat) :
  NoDup (index df) -> index df !! i = Some l -> positions_of df l = [i].
Proof.
  intros Hnd Hi. unfold positions_of.
  set (L := where_from 0 _).
  assert (HL : forall k, k ∈ L <-> k = i).
  { intros k. subst L. rewrite where_from_elem. split.
    - intros (j & -> & Hj). simpl.
      change (map ?f ?l) with (f <$> l) in Hj.
      rewrite list_lookup_fmap in Hj.
      destruct (index df !! j) as [x|] eqn:Hx; [|done].
      injection Hj as Hj. apply bool_decide_eq_true in Hj. subst x.
      by eapply NoDup_lookup.
    - intros ->. exists i. split; [done|].
      change (map ?f ?l) with (f <$> l).
      rewrite list_lookup_fmap, Hi. simpl. by rewrite bool_decide_eq_true_2. }
  assert (HLnd : NoDup L) by apply where_from_NoDup.
  destruct L as [|k [|k' L']].
  - pose proof (proj2 (HL i) eq_refl) as H0. by apply elem_of_nil in H0.
  - f_equal. apply HL. left.
  - exfalso. apply NoDup_cons in HLnd as [Hk _].
    assert (k = i) by (apply HL; left).
    assert (k' = i) by (apply HL; right; left).
    subst. apply Hk. left.
Qed.

(** [loc] on distinct labels that exist: one row per label, the row of
    that label. *)
Lemma loc_list_spec (df : DataFrame) (lbls : list Z) :
  NoDup (index df) ->
  Forall (fun l => l ∈ index df) lbls ->
  exists ps,
    loc_list df lbls = Ok (take_rows df ps)
    /\ Forall2 (fun l p => index df !! p = Some l) lbls ps
    /\ index (take_rows df ps) = lbls.
Proof.
  intros Hnd Hall. unfold loc_list.
  replace (forallb (fun l => bool_decide (l ∈ index df)) lbls) with true.
  2:{ symmetry. apply forallb_forall. intros l Hl.
      apply bool_decide_eq_true. rewrite Forall_forall in Hall.
      apply Hall. by apply list_elem_of_In. }
  exists (l ← lbls; positions_of df l). split; [done|].
  induction Hall as [|l lbls Hl _ IH]; [by split; [constructor|]|].
  apply list_elem_of_lookup in Hl as [i Hi].
  rewrite bind_cons, (positions_of_unique df l i Hnd Hi).
  destruct IH as [IH1 IH2]. split.
  - by constructor.
  - simpl in *. unfold pick in *. simpl. rewrite Hi. simpl. by rewrite IH2.
Qed.

Lemma bind_Ok {A B} (a : A) (f : A -> result B) : (Ok a ≫= f) = f a.
Proof. reflexivity. Qed.

Lemma bind_Raise {A B} (e : exn) (f : A -> result B) :
  (Raise e ≫= f) = Raise e.
Proof. reflexivity. Qed.

Lemma py_truediv_inv (x y z : spec_float) :
  py_truediv x y = Ok z -> SFeqb y fzero = false /\ z = fdiv x y.
Proof.
  unfold py_truediv. destruct (SFeqb y fzero); [done|].
  intros [= <-]. done.
Qed.

Lemma sampling_fraction_inv (data : DataFrame) (target : string)
    (pos : cell) (frac : spec_float) :
  sampling_fraction data target pos = Ok frac ->
  exists s p,
    getitem data target = Ok s
    /\ py_truediv
         (float_of_int
            (len (take_rows data
               (where_from 0 (map (fun x => cell_eqb x pos) (values s))))))
         (float_of_int (len data)) = Ok p
    /\ py_truediv p (fsub fone p) = Ok frac.
Proof.
  unfold sampling_fraction. intros H.
  destruct (getitem data target) as [s|e] eqn:Hs.
  - rewrite (rows_equal_ok data target pos s Hs), bind_Ok in H.
    destruct (py_truediv _ (float_of_int (len data))) as [p|e] eqn:Hp.
    + rewrite bind_Ok in H. by exists s, p.
    + by rewrite bind_Raise in H.
  - unfold rows_equal in H. rewrite Hs in H.
    by rewrite !bind_Raise in H.
Qed.

End Rows.

Section NegativeDownSample.

Local Open Scope Z_scope.

(** C8: when the sampling fraction the function computes is above 1,
    [negative_down_sample] returns nothing: the error [sample] raises for
    a fraction above 1 without replacement leaves the function. *)
Theorem negative_down_sample_over_fraction (data : DataFrame)
    (target : string) (pos neg : cell) (rs : random_state)
    (frac : spec_float) :
  sampling_fraction data target pos = Ok frac ->
  SFltb fone frac = true ->
  negative_down_sample data target pos neg rs = Raise upsample_error.
Proof.
  intros Hfrac Hgt.
  destruct (sampling_fraction_inv data target pos frac Hfrac)
    as (s & p & Hs & Hp & Hfr).
  unfold negative_down_sample.
  rewrite (rows_equal_ok data target pos s Hs), bind_Ok.
  rewrite Hp, bind_Ok, Hfr, bind_Ok.
  rewrite (rows_equal_ok data target neg s Hs), bind_Ok.
  unfold sample_frac. by rewrite Hgt.
Qed.

Lemma negative_down_sample_over_fraction_witness :
  exists frac,
    sampling_fraction t10 "TARGET" (VInt 0) = Ok frac
    /\ SFltb fone frac = true
    /\ negative_down_sample t10 "TARGET" (VInt 0) (VInt 1) [3; 5; 1]%nat
       = Raise upsample_error.
Proof.
  eexists. split; [vm_compute; reflexivity|]. split; [vm_compute; reflexivity|].
  eapply negative_down_sample_over_fraction; vm_compute; reflexivity.
Defined.



End NegativeDownSample.

(** * Further properties *)

(** ** [drop_columns] and [column_cut]: errors and the copying call *)

Section MoreDropColumns.

Lemma drop_columns_copy_witness :
  drop_columns (PRef 0%nat) ["a"] false (mkWorld [t_ab] [])
  = (mkWorld [t_ab; t_b]
       ["Dataframe has 1 column after dropping 1 columns."],
     Ok (PRef 1%nat)).
Proof.
  apply (drop_columns_copy (mkWorld [t_ab] []) 0%nat t_ab ["a"]).
  - reflexivity.
  - discriminate.
  - by_decide.
Defined.

Lemma drop_columns_inplace_witness :
  drop_columns (PRef 0%nat) ["a"] true (mkWorld [t_ab] [])
  = (mkWorld [t_b] [], Raise AttributeError).
Proof.
  apply (drop_columns_inplace (mkWorld [t_ab] []) 0%nat t_ab ["a"]).
  - reflexivity.
  - discriminate.
  - by_decide.
Defined.

Lemma drop_cols_absent (df : DataFrame) (cols : list string) (c : string) :
  c ∈ cols -> c ∉ labels df -> drop_cols df cols = Raise KeyError.
Proof.
  intros Hc Hnot. apply drop_cols_missing. intros Hall.
  rewrite Forall_forall in Hall. by apply Hnot, Hall.
Qed.

(** X3: On a table with columns, a requested name that is not a column makes
    [drop_columns] raise [KeyError], in place or not: no object is
    created or changed and nothing is logged. *)
Theorem drop_columns_missing_label (w : world) (l : loc) (df : DataFrame)
    (cols : list string) (inplace : bool) (c : string) :
  heap w !! l = Some df ->
  columns df ≠ [] ->
  c ∈ cols -> c ∉ labels df ->
  drop_columns (PRef l) cols inplace w = (w, Raise KeyError).
Proof.
  intros Hl Hne Hc Hnot.
  unfold drop_columns, mbind, ST_bind, get_shape, DataFrame_drop. simpl.
  rewrite Hl. simpl.
  destruct (columns df) as [|c0 cs] eqn:Hcols; [done|]. simpl.
  by rewrite Hl, (drop_cols_absent df cols c Hc Hnot).
Qed.

Lemma drop_columns_missing_label_witness :
  drop_columns (PRef 0%nat) ["a"; "zz"] true (mkWorld [t_ab] [])
  = (mkWorld [t_ab] [], Raise KeyError).
Proof.
  apply (drop_columns_missing_label (mkWorld [t_ab] []) 0%nat t_ab
           ["a"; "zz"] true "zz").
  - reflexivity.
  - discriminate.
  - by_decide.
  - by_decide.
Defined.

(** X4: [column_cut] raises [KeyError] when a requested name is not a column
    of the table. *)
Theorem column_cut_missing_label (frame : DataFrame) (cols : list string)
    (c : string) :
  c ∈ cols -> c ∉ labels frame -> column_cut frame cols = Raise KeyError.
Proof.
  intros Hc Hnot. unfold column_cut, getitem_list.
  destruct (forallb (has_label frame) cols) eqn:E; [|done].
  exfalso. rewrite forallb_forall in E.
  specialize (E c (proj1 (list_elem_of_In _ _) Hc)).
  unfold has_label in E. by apply bool_decide_eq_true in E.
Qed.

Lemma column_cut_missing_label_witness :
  column_cut t_ab ["b"; "zz"] = Raise KeyError.
Proof.
  apply (column_cut_missing_label t_ab ["b"; "zz"] "zz"); by_decide.
Defined.

End MoreDropColumns.

(** ** [categorize]: what it leaves alone, its keys and its failure *)

Section MoreCategorize.



Lemma dict_set_keys_new (d : dict) (k : string) (v : list cell) :
  k ∉ map fst d -> map fst (dict_set d k v) = map fst d ++ [k].
Proof.
  intros Hk. unfold dict_set. rewrite bool_decide_eq_false_2 by done.
  by rewrite map_app.
Qed.

Lemma categorize_loop_keys (dt : option dtype) (cols : list string) :
  forall (frame frame' : DataFrame) (uniques uniques' : dict),
  categorize_loop uniques cols dt frame = (frame', Ok uniques') ->
  Forall (fun c => c ∈ labels frame) cols ->
  NoDup cols ->
  (forall c, c ∈ cols -> c ∉ map fst uniques) ->
  map fst uniques' = map fst uniques ++ cols.
Proof.
  induction cols as [|c0 cols IH];
    intros frame frame' uniques uniques' Hrun Hall Hnd Hfresh.
  - simpl in Hrun. injection Hrun as _ <-. by rewrite app_nil_r.
  - apply Forall_cons in Hall as [Hc0 Hall].
    apply NoDup_cons in Hnd as [Hc0n Hnd].
    destruct (getitem_present frame c0 Hc0) as (s0 & Hs0 & _).
    destruct (factorize (values s0)) as [codes0 u0] eqn:Hf.
    rewrite (categorize_step frame uniques c0 cols dt s0 codes0 u0 Hc0 Hs0 Hf)
      in Hrun.
    destruct (encoded_spec frame c0 dt codes0 Hc0) as (Hlab2 & _).
    assert (Hk0 : c0 ∉ map fst uniques) by (apply Hfresh; left).
    rewrite (IH _ _ _ _ Hrun).
    + rewrite dict_set_keys_new by done. by rewrite <- app_assoc.
    + by rewrite Hlab2.
    + done.
    + intros c Hc. rewrite dict_set_keys_new by done.
      rewrite not_elem_of_app. split; [apply Hfresh; by right|].
      intros ->%list_elem_of_singleton. done.
Qed.

(** X6: For distinct listed names, the keys of the returned [dict] are the
    listed names, in the order listed. *)
Theorem categorize_keys_in_order (frame frame' : DataFrame)
    (cols : list string) (dt : option dtype) (uniques : dict) :
  Forall (fun c => c ∈ labels frame) cols ->
  NoDup cols ->
  categorize frame cols dt = (frame', Ok uniques) ->
  map fst uniques = cols.
Proof.
  intros Hall Hnd Hrun. unfold categorize in Hrun.
  rewrite (categorize_loop_keys dt cols frame frame' [] uniques Hrun Hall Hnd);
    [done|].
  intros c _. apply not_elem_of_nil.
Qed.

Lemma categorize_keys_in_order_witness :
  map fst [("b", [VStr "x"]); ("a", [VInt 1; VInt 2])] = ["b"; "a"].
Proof.
  apply (categorize_keys_in_order t_ab
           (mkFrame [0; 1]
              [mkSeries "a" DInt64 [VInt 0; VInt 1];
               mkSeries "b" DInt64 [VInt 0; VInt (-1)]])
           ["b"; "a"] None).
  - by_decide.
  - by_decide.
  - vm_compute. reflexivity.
Defined.

Lemma getitem_absent (df : DataFrame) (c : string) :
  c ∉ labels df -> getitem df c = Raise KeyError.
Proof.
  intros Hc. unfold getitem.
  by rewrite (proj2 (find_key_None name c (columns df)) Hc).
Qed.

Lemma categorize_loop_fails (dt : option dtype) (pre : list string) :
  forall (frame : DataFrame) (uniques : dict) (c : string)
         (post : list string),
  Forall (fun x => x ∈ labels frame) pre ->
  c ∉ labels frame ->
  exists frame' uniques',
    categorize_loop uniques pre dt frame = (frame', Ok uniques')
    /\ categorize_loop uniques (pre ++ c :: post) dt frame
       = (frame', Raise KeyError).
Proof.
  induction pre as [|c0 pre IH]; intros frame uniques c post Hall Hc.
  - exists frame, uniques. split; [done|]. simpl.
    unfold mbind, ST_bind, read_column. by rewrite (getitem_absent frame c Hc).
  - apply Forall_cons in Hall as [Hc0 Hall].
    destruct (getitem_present frame c0 Hc0) as (s0 & Hs0 & _).
    destruct (factorize (values s0)) as [codes0 u0] eqn:Hf.
    change ((c0 :: pre) ++ c :: post) with (c0 :: (pre ++ c :: post)).
    rewrite !(categorize_step frame uniques c0 _ dt s0 codes0 u0 Hc0 Hs0 Hf).
    destruct (encoded_spec frame c0 dt codes0 Hc0) as (Hlab2 & _).
    apply IH; by rewrite Hlab2.
Qed.





End MoreCategorize.

(** ** [frame_info]: bounds on the counts and on the samples *)

Section MoreFrameInfo.

Lemma nunique_le_count (vs : list cell) : (nunique vs <= count vs)%nat.
Proof.
  unfold nunique, count, unique. generalize (@nil cell).
  induction vs as [|v vs IH]; intros seen; simpl; [done|].
  rewrite (filter_cons _ v vs).
  case_bool_decide.
  - specialize (IH seen). destruct (decide (is_na v = false)); simpl; lia.
  - rewrite filter_cons. specialize (IH (cell_key v :: seen)).
    destruct (decide (is_na v = false)); simpl; lia.
Qed.

Lemma count_le_length (vs : list cell) : (count vs <= length vs)%nat.
Proof. apply length_filter. Qed.



Lemma build_summary_samples (nrow : nat) (cs cs' : list Series)
    (g : Series -> list cell) :
  length cs' = length cs ->
  Forall2 (fun s' row => samples (snd row) = g s') cs'
    (build_summary
       (map (fun s => (name s, s_dtype s)) cs)
       (map (fun s => (name s, g s)) cs')
       (series_div_scalar
          (map (fun s => (name s, isna_sum (values s))) cs) nrow)
       (map (fun s => (name s, isna_sum (values s))) cs)
       (map (fun s => (name s, count (values s))) cs)
       (series_div
          (map (fun s => (name s, nunique (values s))) cs)
          (map (fun s => (name s, count (values s))) cs))
       (map (fun s => (name s, nunique (values s))) cs)).
Proof.
  revert cs'. induction cs as [|s cs IH]; intros [|s' cs'] Hlen;
    simpl in *; try done.
  constructor; [done|apply IH; lia].
Qed.

Lemma slice_to_elem {A} (n : Z) (l : list A) (x : A) :
  x ∈ slice_to n l -> x ∈ l.
Proof.
  unfold slice_to. destruct (0 <=? n)%Z; intros Hx;
    by eapply subseteq_take.
Qed.

Lemma slice_to_length {A} (n : Z) (l : list A) :
  (length (slice_to n l) <= length l)%nat
  /\ ((0 <= n)%Z -> (length (slice_to n l) <= Z.to_nat n)%nat).
Proof.
  unfold slice_to. destruct (0 <=? n)%Z eqn:E.
  - rewrite length_take. split; [lia|]. intros _. lia.
  - rewrite length_take. split; [lia|]. intros Hn.
    apply Z.leb_gt in E. lia.
Qed.

Lemma unique_length (vs : list cell) : (length (unique vs) <= length vs)%nat.
Proof.
  unfold unique. generalize (@nil cell).
  induction vs as [|v vs IH]; intros seen; simpl; [done|].
  case_bool_decide; simpl.
  - specialize (IH seen). lia.
  - specialize (IH (cell_key v :: seen)). lia.
Qed.



End MoreFrameInfo.

(** ** [negative_down_sample]: inputs on which no sample is drawn *)

Section MoreNegativeDownSample.

Local Open Scope Z_scope.

Lemma float_of_int_nonzero (n : Z) :
  0 < n < 2 ^ 53 -> SFeqb (float_of_int n) fzero = false.
Proof.
  intros Hn. destruct (float_of_int_exact n Hn) as (m & e & -> & _). done.
Qed.

Lemma SFdiv_core_binary_self (m : positive) (e : Z) :
  SFdiv_core_binary prec64 emax64 (Zpos m) e (Zpos m) e
  = (2 ^ 53, -53, loc_Exact).
Proof.
  unfold SFdiv_core_binary.
  replace (Zdigits2 (Zpos m) + e - (Zdigits2 (Zpos m) + e)) with 0 by lia.
  rewrite Z.sub_diag.
  change (Z.min (fexp prec64 emax64 0) 0) with (-53).
  change (0 - -53) with 53.
  cbv iota beta.
  rewrite Z.shiftl_mul_pow2 by lia.
  pose proof (Z_div_mod (Zpos m * 2 ^ 53) (Zpos m) ltac:(lia)) as Hdm.
  destruct (Z.div_eucl (Zpos m * 2 ^ 53) (Zpos m)) as [q r].
  destruct Hdm as [Hdm Hr].
  assert (Hq : q = 2 ^ 53) by nia.
  assert (Hr0 : r = 0) by nia.
  subst q r. f_equal.
  pose proof (new_location_exact (Zpos m) 0 eq_refl) as Hx.
  by destruct (new_location (Zpos m) 0).
Qed.

Lemma py_truediv_ok (x y : spec_float) :
  SFeqb y fzero = false -> py_truediv x y = Ok (fdiv x y).
Proof. unfold py_truediv. by intros ->. Qed.

(** A row count divided by itself is exactly 1. *)
Lemma fdiv_self (n : Z) :
  0 < n < 2 ^ 53 -> fdiv (float_of_int n) (float_of_int n) = fone.
Proof.
  intros Hn. destruct (float_of_int_exact n Hn) as (m & e & -> & _).
  unfold fdiv, SFdiv. rewrite SFdiv_core_binary_self. reflexivity.
Qed.

Lemma fdiv_zero (n : Z) :
  0 < n < 2 ^ 53 -> fdiv (float_of_int 0) (float_of_int n) = fzero.
Proof.
  intros Hn. destruct (float_of_int_exact n Hn) as (m & e & -> & _). done.
Qed.

Lemma fmul_zero (n : Z) :
  0 <= n < 2 ^ 53 -> fmul fzero (float_of_int n) = fzero.
Proof.
  intros Hn. destruct (Z.eq_dec n 0) as [->|Hne]; [done|].
  destruct (float_of_int_exact n ltac:(lia)) as (m & e & -> & _). done.
Qed.

Lemma where_from_none (i : nat) (vs : list cell) (f : cell -> bool) :
  length (filter (fun x => f x = true) vs) = 0%nat ->
  where_from i (map f vs) = [].
Proof.
  intros H. apply nil_length_inv. by rewrite where_from_length.
Qed.

Lemma rows_equal_length (data : DataFrame) (s : Series) (v : cell) :
  length (values s) = length (index data) ->
  len (take_rows data
         (where_from 0 (map (fun x => cell_eqb x v) (values s))))
  = Z.of_nat (count_equal (values s) v).
Proof.
  intros Hlen. unfold len, take_rows, count_equal. simpl.
  rewrite pick_length, where_from_length; [done|].
  pose proof (where_in_range 0 (map (fun x => cell_eqb x v) (values s))) as H.
  by rewrite length_map, Hlen in H.
Qed.

(** X11: A table without the target column cannot be sampled: the lookup of
    the column raises [KeyError]. *)
Theorem negative_down_sample_missing_target (data : DataFrame)
    (target : string) (pos neg : cell) (rs : random_state) :
  target ∉ labels data ->
  negative_down_sample data target pos neg rs = Raise KeyError.
Proof.
  intros Ht. unfold negative_down_sample, rows_equal.
  by rewrite (getitem_absent data target Ht), !bind_Raise.
Qed.

Lemma negative_down_sample_missing_target_witness :
  negative_down_sample t_ab "TARGET" (VInt 1) (VInt 0) [] = Raise KeyError.
Proof.
  apply (negative_down_sample_missing_target t_ab "TARGET").
  by_decide.
Defined.

(** X12: On a table without rows, and on a table all of whose rows are
    positive, the function raises [ZeroDivisionError]: the positive
    fraction is 0 / 0 in the first case, and exactly 1 in the second, so
    that the sampling fraction divides by [1 - 1]. *)
Theorem negative_down_sample_zero_division (data : DataFrame)
    (target : string) (pos neg : cell) (rs : random_state) (s : Series) :
  rectangular data ->
  len data < 2 ^ 53 ->
  getitem data target = Ok s ->
  count_equal (values s) pos = length (index data) ->
  negative_down_sample data target pos neg rs = Raise ZeroDivisionError.
Proof.
  intros Hrect Hlt Hs Hall.
  assert (Hlen : length (values s) = length (index data)).
  { unfold rectangular in Hrect. rewrite Forall_forall in Hrect.
    apply Hrect. by eapply getitem_elem. }
  unfold negative_down_sample.
  rewrite (rows_equal_ok data target pos s Hs), bind_Ok.
  rewrite (rows_equal_length data s pos Hlen), Hall.
  change (Z.of_nat (length (index data))) with (len data).
  destruct (Z.eq_dec (len data) 0) as [H0|Hne].
  - rewrite H0. reflexivity.
  - assert (Hn : 0 < len data < 2 ^ 53) by (unfold len in *; lia).
    rewrite (py_truediv_ok _ _ (float_of_int_nonzero _ Hn)), bind_Ok.
    rewrite (fdiv_self _ Hn). reflexivity.
Qed.

Lemma negative_down_sample_zero_division_witness :
  negative_down_sample t_all "TARGET" (VInt 1) (VInt 0) [2]%nat
  = Raise ZeroDivisionError.
Proof.
  apply (negative_down_sample_zero_division t_all "TARGET" (VInt 1) (VInt 0) [2]%nat
           (mkSeries "TARGET" DInt64 [VInt 1; VInt 1])).
  - repeat constructor.
  - reflexivity.
  - reflexivity.
  - reflexivity.
Defined.

(** X13: On a table with rows none of which is positive, nothing is drawn
    and the result is the table with its columns and no row: the
    positive fraction and the sampling fraction are both 0. *)
Theorem negative_down_sample_no_positive (data : DataFrame)
    (target : string) (pos neg : cell) (rs : random_state) (s : Series) :
  rectangular data ->
  0 < len data < 2 ^ 53 ->
  getitem data target = Ok s ->
  count_equal (values s) pos = 0%nat ->
  negative_down_sample data target pos neg rs
  = Ok (mkFrame []
          (map (fun c => mkSeries (name c) (s_dtype c) []) (columns data))).
Proof.
  intros Hrect Hn Hs Hnone.
  assert (Hlen : length (values s) = length (index data)).
  { unfold rectangular in Hrect. rewrite Forall_forall in Hrect.
    apply Hrect. by eapply getitem_elem. }
  unfold negative_down_sample.
  rewrite (rows_equal_ok data target pos s Hs), bind_Ok.
  rewrite (rows_equal_length data s pos Hlen), Hnone.
  rewrite (where_from_none 0 (values s) (fun x => cell_eqb x pos) Hnone).
  rewrite (py_truediv_ok _ _ (float_of_int_nonzero _ Hn)), bind_Ok.
  change (float_of_int (Z.of_nat 0)) with (float_of_int 0).
  rewrite (fdiv_zero _ Hn).
  change (py_truediv fzero (fsub fone fzero)) with (Ok (A:=spec_float) fzero).
  rewrite bind_Ok.
  rewrite (rows_equal_ok data target neg s Hs), bind_Ok.
  unfold sample_frac.
  change (SFltb fone fzero) with false.
  change (SFltb fzero fzero) with false. cbv iota.
  set (neg_rows := take_rows data
    (where_from 0 (map (fun x => cell_eqb x neg) (values s)))).
  assert (Hneg : 0 <= Z.of_nat (length (index neg_rows)) < 2 ^ 53).
  { change (Z.of_nat (length (index neg_rows))) with (len neg_rows).
    subst neg_rows. rewrite (rows_equal_length data s neg Hlen).
    unfold count_equal.
    pose proof (length_filter (fun x => cell_eqb x neg = true) (values s)).
    unfold len in Hn. lia. }
  rewrite (fmul_zero _ Hneg).
  change (py_round fzero) with (Ok (A:=Z) 0). rewrite bind_Ok.
  unfold choice.
  replace (Z.of_nat (length (index neg_rows)) <? 0) with false
    by (symmetry; apply Z.ltb_ge; lia).
  change (0 <? 0) with false. cbv iota.
  change (Z.to_nat 0) with 0%nat.
  replace (draw rs (seq 0 (length (index neg_rows))) 0) with (@nil nat)
    by (by destruct (seq 0 (length (index neg_rows)))).
  rewrite bind_Ok. reflexivity.
Qed.

Lemma negative_down_sample_no_positive_witness :
  negative_down_sample t_all "TARGET" (VInt 3) (VInt 1) [5]%nat
  = Ok (mkFrame [] [mkSeries "TARGET" DInt64 []]).
Proof.
  apply (negative_down_sample_no_positive t_all "TARGET" (VInt 3) (VInt 1)
           [5]%nat (mkSeries "TARGET" DInt64 [VInt 1; VInt 1])).
  - repeat constructor.
  - by_decide.
  - reflexivity.
  - reflexivity.
Defined.

End MoreNegativeDownSample.

(** ** [qqplot] *)

Section QQPlot.

Local Open Scope Z_scope.

Variable probplot : list cell -> result Fit.
Variable subplots : Z -> Z -> Z * spec_float -> result ax_array.

Lemma fig_ncol_small (k : Z) : k <= 5 -> fig_ncol k = k.
Proof. unfold fig_ncol. lia. Qed.

Lemma fig_ncol_large (k : Z) : 5 <= k -> fig_ncol k = 5.
Proof. unfold fig_ncol. lia. Qed.

Lemma fig_nrow_small (k : Z) : 1 <= k <= 5 -> fig_nrow k = 1.
Proof.
  intros Hk. unfold fig_nrow. rewrite fig_ncol_small by lia.
  rewrite Z.mod_same, Z.div_same by lia. reflexivity.
Qed.

Lemma fig_nrow_large (k : Z) :
  5 <= k -> (fig_nrow k - 1) * 5 < k <= fig_nrow k * 5.
Proof.
  intros Hk. unfold fig_nrow. rewrite fig_ncol_large by lia.
  pose proof (Z.div_mod k 5 ltac:(lia)).
  pose proof (Z.mod_pos_bound k 5 ltac:(lia)).
  destruct (Z.eqb_spec (k mod 5) 0); simpl; lia.
Qed.

(** X14: The grid has between one and five columns, room for every plotted
    column, and no row without a plot. *)
Theorem fig_grid_fits (k : Z) :
  1 <= k ->
  1 <= fig_ncol k <= 5
  /\ 1 <= fig_nrow k
  /\ (fig_nrow k - 1) * fig_ncol k < k <= fig_nrow k * fig_ncol k.
Proof.
  intros Hk. destruct (Z_le_gt_dec k 5) as [Hs|Hl].
  - rewrite fig_ncol_small, fig_nrow_small by lia. lia.
  - pose proof (fig_nrow_large k ltac:(lia)).
    rewrite fig_ncol_large by lia. lia.
Qed.

Lemma fig_grid_fits_witness :
  1 <= fig_ncol 7 <= 5
  /\ 1 <= fig_nrow 7
  /\ (fig_nrow 7 - 1) * fig_ncol 7 < 7 <= fig_nrow 7 * fig_ncol 7.
Proof. apply (fig_grid_fits 7). lia. Defined.

Lemma g_next_slot (n : Z) (j : nat) :
  1 <= n -> g_next n (slot n j) = slot n (S j).
Proof.
  intros Hn. unfold g_next, slot.
  set (m := Z.to_nat n).
  assert (Hm : (0 < m)%nat) by lia.
  pose proof (Nat.div_mod_eq j m) as Hdm.
  pose proof (Nat.mod_upper_bound j m ltac:(lia)) as Hlt.
  destruct (Z.ltb_spec (Z.of_nat (S (j mod m))) n) as [Hc|Hc].
  - assert (Hq : (j / m = S j / m)%nat).
    { apply (Nat.div_unique (S j) m (j / m) (S (j mod m))); lia. }
    assert (Hr : (S (j mod m) = S j mod m)%nat).
    { apply (Nat.mod_unique (S j) m (j / m) (S (j mod m))); lia. }
    by rewrite Hq, Hr.
  - assert (Hs : S (j mod m) = m) by lia.
    assert (Hq : (S (j / m) = S j / m)%nat).
    { apply (Nat.div_unique (S j) m (S (j / m)) 0); lia. }
    assert (Hr : (0 = S j mod m)%nat).
    { apply (Nat.mod_unique (S j) m (S (j / m)) 0); lia. }
    by rewrite Hq, Hr.
Qed.

Lemma grid_axes_lookup (nrow ncol r c : nat) :
  (r < nrow)%nat -> (c < ncol)%nat ->
  exists row, grid_axes nrow ncol !! r = Some row /\ row !! c = Some (r, c).
Proof.
  intros Hr Hc. unfold grid_axes.
  exists (map (fun c => (r, c)) (seq 0 ncol)). split.
  - change (map ?f ?l) with (f <$> l).
    by rewrite list_lookup_fmap, lookup_seq_lt.
  - change (map ?f ?l) with (f <$> l).
    by rewrite list_lookup_fmap, lookup_seq_lt.
Qed.

(** In the squeezed array of the grid computed for [k >= 2] columns, the
    loop finds for its [j]-th pair the axes of the [j]-th slot. *)
Lemma axes_at_squeeze (k : Z) (j : nat) :
  2 <= k -> Z.of_nat j < k ->
  axes_at (squeeze (Z.to_nat (fig_nrow k)) (Z.to_nat (fig_ncol k)))
    (fig_nrow k) (fst (slot (fig_ncol k) j)) (snd (slot (fig_ncol k) j))
  = inr (Item (slot (fig_ncol k) j)).
Proof.
  intros Hk Hj. unfold axes_at, slot. cbn [fst snd].
  destruct (Z_le_gt_dec k 5) as [Hs|Hl].
  - rewrite fig_ncol_small, fig_nrow_small by lia.
    change (1 <? 1) with false. cbv iota.
    rewrite Nat.div_small, Nat.mod_small by lia.
    change (Z.to_nat 1) with 1%nat.
    assert (Hsq : squeeze 1 (Z.to_nat k)
                  = AxRow (map (fun c => (0%nat, c)) (seq 0 (Z.to_nat k)))).
    { destruct (Z.to_nat k) as [|[|n]] eqn:E; [lia|lia|done]. }
    rewrite Hsq. unfold subscript.
    change (map ?f ?l) with (f <$> l).
    by rewrite list_lookup_fmap, lookup_seq_lt by lia.
  - pose proof (fig_nrow_large k ltac:(lia)) as Hrows.
    rewrite fig_ncol_large by lia.
    replace (1 <? fig_nrow k) with true by (symmetry; apply Z.ltb_lt; lia).
    change (Z.to_nat 5) with 5%nat.
    assert (Hsq : squeeze (Z.to_nat (fig_nrow k)) 5
                  = AxGrid (grid_axes (Z.to_nat (fig_nrow k)) 5)).
    { destruct (Z.to_nat (fig_nrow k)) as [|[|n]] eqn:E; [lia|lia|done]. }
    rewrite Hsq. unfold subscript.
    pose proof (Nat.div_mod_eq j 5) as Hdm.
    pose proof (Nat.mod_upper_bound j 5 ltac:(lia)) as Hlt.
    destruct (grid_axes_lookup (Z.to_nat (fig_nrow k)) 5 (j / 5) (j mod 5))
      as (row & -> & Hrow); [lia|lia|].
    unfold subscript_item. cbv beta iota. unfold Axes in *. by rewrite Hrow.
Qed.

Lemma plot_columns_all (frame : DataFrame) (ax : ax_array) (nrow ncol : Z)
    (D : nat -> Series -> drawing) (fit : Series -> Fit) :
  1 <= ncol ->
  forall (ss : list Series) (j : nat) (drawn : list drawing),
    (forall i s, ss !! i = Some s ->
       axes_at ax nrow (fst (slot ncol (j + i))) (snd (slot ncol (j + i)))
       = inr (Item (slot ncol (j + i)))
       /\ getitem frame (name s) = Ok s
       /\ probplot (dropna (values s)) = Ok (fit s)
       /\ D (j + i)%nat s
          = mkDrawing (slot ncol (j + i)) (fit s)
              (default "#9b59b6" (palette_dtypes (s_dtype s))) (name s)) ->
    plot_columns probplot frame ax nrow ncol (slot ncol j) (map name ss) drawn
    = (drawn ++ imap (fun i => D (j + i)%nat) ss, Returns).
Proof.
  intros Hn. induction ss as [|s ss IH]; intros j drawn Hall.
  - simpl. by rewrite app_nil_r.
  - destruct (Hall 0%nat s eq_refl) as (Hax & Hget & Hfit & HD).
    rewrite Nat.add_0_r in Hax, HD.
    cbn [map plot_columns].
    destruct (slot ncol j) as [r c] eqn:Hslot. cbn [fst snd] in Hax.
    rewrite Hax, Hget. unfold make_plot. rewrite Hfit.
    rewrite <- Hslot, (g_next_slot ncol j Hn), IH.
    + rewrite <- app_assoc. cbn [app]. rewrite imap_cons.
      rewrite Nat.add_0_r, HD, Hslot. do 3 f_equal.
      apply imap_ext. intros i x _. simpl. f_equal. lia.
    + intros i x Hx. specialize (Hall (S i) x Hx).
      by replace (S j + i)%nat with (j + S i)%nat by lia.
Qed.

Lemma NoDup_name_eq (l : list Series) (x y : Series) :
  NoDup (map name l) -> x ∈ l -> y ∈ l -> name x = name y -> x = y.
Proof.
  intros Hnd (i & Hi)%list_elem_of_lookup_1 (j & Hj)%list_elem_of_lookup_1 Heq.
  assert (i = j) as ->.
  { apply (NoDup_lookup (map name l) i j (name x)); [done| |].
    - change (map ?f ?l) with (f <$> l). by rewrite list_lookup_fmap, Hi.
    - change (map ?f ?l) with (f <$> l).
      by rewrite list_lookup_fmap, Hj, Heq. }
  congruence.
Qed.

Lemma plotted_NoDup (data : DataFrame) :
  NoDup (labels data) -> NoDup (map name (plotted_columns data)).
Proof.
  unfold labels, plotted_columns, select_dtypes_exclude_object. simpl.
  intros Hnd. eapply sublist_NoDup; [exact Hnd|].
  change (map ?f ?l) with (f <$> l).
  apply fmap_sublist, sublist_filter.
Qed.

(** X15: A table with distinct column names and at least two columns that are
    not of type object is plotted whole: when [plt.subplots] returns the
    squeezed array of the grid asked for and [probplot] fits every such
    column, [qqplot] returns after one plot per such column, in the order
    of the columns, each on the axes of its slot (rows first), in the
    colour of its type and titled with its name. *)
Theorem qqplot_layout (data : DataFrame) (fit : Series -> Fit) (k : Z) :
  NoDup (labels data) ->
  k = Z.of_nat (length (plotted_columns data)) ->
  2 <= k ->
  subplots (fig_nrow k) (fig_ncol k) (fig_size k)
  = Ok (squeeze (Z.to_nat (fig_nrow k)) (Z.to_nat (fig_ncol k))) ->
  (forall s, s ∈ plotted_columns data ->
     probplot (dropna (values s)) = Ok (fit s)) ->
  qqplot probplot subplots (PyFrame data)
  = (imap (plot_of k fit) (plotted_columns data), Returns).
Proof.
  intros Hnd Hk H2 Hsub Hfit.
  unfold qqplot, plot_frame.
  change (snd (shape (select_dtypes_exclude_object data)))
    with (length (plotted_columns data)).
  rewrite <- Hk, Hsub.
  replace (fig_ncol k =? 0) with false
    by (symmetry; apply Z.eqb_neq; unfold fig_ncol; lia).
  change (labels (select_dtypes_exclude_object data))
    with (map name (plotted_columns data)).
  assert (H0 : (0%nat, 0%nat) = slot (fig_ncol k) 0).
  { unfold slot, fig_ncol.
    rewrite Nat.Div0.div_0_l, Nat.Div0.mod_0_l. done. }
  rewrite H0.
  rewrite (plot_columns_all _ _ _ _ (plot_of k fit) fit);
    [done|unfold fig_ncol; lia|].
  intros i s Hs. cbn [Nat.add].
  pose proof (lookup_lt_Some _ _ _ Hs) as Hi.
  assert (Hin : s ∈ plotted_columns data)
    by (by eapply list_elem_of_lookup_2).
  split; [apply axes_at_squeeze; lia|].
  split; [|split; [by apply Hfit|done]].
  destruct (getitem_present (select_dtypes_exclude_object data) (name s))
    as (s' & Hget & Hname).
  { unfold labels. change (map ?f ?l) with (f <$> l).
    by apply list_elem_of_fmap_2. }
  rewrite Hget. f_equal.
  apply (NoDup_name_eq (plotted_columns data));
    [by apply plotted_NoDup|by apply getitem_elem in Hget|done|done].
Qed.

(** X16: A table with exactly one column that is not of type object is not
    plotted: [plt.subplots] returns the lone [Axes] of a one-slot grid,
    not an array, and subscripting it raises [TypeError] before anything
    is drawn. *)
Theorem qqplot_single_column (data : DataFrame) (s : Series) (a : Axes) :
  plotted_columns data = [s] ->
  subplots 1 1 (fig_size 1) = Ok (AxOne a) ->
  qqplot probplot subplots (PyFrame data)
  = ([], Raises (TypeError NotSubscriptable)).
Proof.
  intros Hcols Hsub. unfold qqplot, plot_frame.
  change (snd (shape (select_dtypes_exclude_object data)))
    with (length (plotted_columns data)).
  change (labels (select_dtypes_exclude_object data))
    with (map name (plotted_columns data)).
  rewrite Hcols.
  change (fig_nrow (Z.of_nat (length [s]))) with 1.
  change (fig_ncol (Z.of_nat (length [s]))) with 1.
  change (Z.of_nat (length [s])) with 1.
  rewrite Hsub. reflexivity.
Qed.

Lemma plot_columns_titles (frame : DataFrame) (ax : ax_array)
    (nrow ncol : Z) :
  forall (cols : list string) (g : nat * nat) (drawn : list drawing),
    exists n,
      map d_title
        (fst (plot_columns probplot frame ax nrow ncol g cols drawn))
      = map d_title drawn ++ take n cols
      /\ (snd (plot_columns probplot frame ax nrow ncol g cols drawn)
          = Returns -> n = length cols).
Proof.
  induction cols as [|column rest IH]; intros [r c] drawn.
  - exists 0%nat. simpl. by rewrite app_nil_r.
  - cbn [plot_columns].
    destruct (axes_at ax nrow r c) as [e|axes];
      [exists 0%nat; simpl; by rewrite app_nil_r|].
    destruct (getitem frame column) as [series|e];
      [|exists 0%nat; simpl; by rewrite app_nil_r].
    unfold make_plot.
    destruct (probplot (dropna (values series))) as [f|e];
      [|exists 0%nat; simpl; by rewrite app_nil_r].
    destruct axes as [a|row];
      [|exists 0%nat; simpl; by rewrite app_nil_r].
    destruct (IH (g_next ncol (r, c))
                (drawn ++ [mkDrawing a f
                   (default "#9b59b6" (palette_dtypes (s_dtype series)))
                   column])) as (n & Ht & Hn).
    exists (S n). split.
    + rewrite Ht, map_app, <- app_assoc. done.
    + intros Hr. simpl. f_equal. by apply Hn.
Qed.

(** X17: Whatever the two libraries do, the plots [qqplot] draws for a table
    are titled with the names of the first so many columns that are not of
    type object, in their order: no column of type object is plotted, and
    none twice or out of turn.  When the call returns, every such column
    has its plot. *)
Theorem qqplot_titles (data : DataFrame) :
  (exists n,
     map d_title (fst (qqplot probplot subplots (PyFrame data)))
     = take n (map name (plotted_columns data)))
  /\ (snd (qqplot probplot subplots (PyFrame data)) = Returns ->
      map d_title (fst (qqplot probplot subplots (PyFrame data)))
      = map name (plotted_columns data)).
Proof.
  unfold qqplot, plot_frame.
  change (labels (select_dtypes_exclude_object data))
    with (map name (plotted_columns data)).
  destruct (subplots _ _ _) as [ax|e].
  - destruct (fig_ncol _ =? 0).
    + split; [by exists 0%nat|done].
    + destruct (plot_columns_titles (select_dtypes_exclude_object data) ax
        (fig_nrow (Z.of_nat (snd (shape (select_dtypes_exclude_object data)))))
        (fig_ncol (Z.of_nat (snd (shape (select_dtypes_exclude_object data)))))
        (map name (plotted_columns data)) (0%nat, 0%nat) [])
        as (n & Ht & Hn).
      split; [by exists n|].
      intros Hr. rewrite Ht, (Hn Hr). simpl. by rewrite firstn_all.
  - split; [by exists 0%nat|done].
Qed.

End QQPlot.

Lemma qqplot_layout_witness :
  qqplot probplot_flat subplots_squeeze (PyFrame t_abc)
  = (imap (plot_of 2 (fun _ => mkFit [] [] fzero fzero fzero))
       (plotted_columns t_abc), Returns).
Proof.
  apply (qqplot_layout probplot_flat subplots_squeeze t_abc
           (fun _ => mkFit [] [] fzero fzero fzero) 2).
  - by_decide.
  - reflexivity.
  - lia.
  - reflexivity.
  - reflexivity.
Defined.

Lemma qqplot_single_column_witness :
  qqplot probplot_flat subplots_squeeze (PyFrame t_ab)
  = ([], Raises (TypeError NotSubscriptable)).
Proof.
  apply (qqplot_single_column probplot_flat subplots_squeeze t_ab
           (mkSeries "a" DInt64 [VInt 1; VInt 2]) (0%nat, 0%nat)).
  - reflexivity.
  - reflexivity.
Defined.

(** ** [categorize] and [frame_info] on the same table *)

Section DistinctValues.

Lemma cell_key_na (v : cell) : is_na v = true <-> cell_key v = NA.
Proof.
  unfold is_na, cell_key. repeat case_match; split; congruence.
Qed.

Lemma index_of_elem (u : list cell) (v : cell) :
  is_Some (index_of u v) <-> cell_key v ∈ map cell_key u.
Proof.
  split.
  - intros [i Hi]. apply index_of_Some in Hi as (w & Hw & Hk).
    rewrite <- Hk. change (map ?f ?l) with (f <$> l).
    apply list_elem_of_fmap_2. by eapply list_elem_of_lookup_2.
  - intros Hin. destruct (index_of u v) eqn:E; [done|].
    by apply index_of_None in E.
Qed.

(** The distinct values [pd.factorize] returns are the present entries of
    [Series.unique()], in the same order. *)
Lemma factorize_from_unique (vs : list cell) :
  forall (u seen : list cell),
    (forall v, is_na v = false ->
       cell_key v ∈ seen <-> cell_key v ∈ map cell_key u) ->
    snd (factorize_from u vs)
    = u ++ filter (fun v => is_na v = false) (unique_from seen vs).
Proof.
  induction vs as [|v vs IH]; intros u seen Hinv.
  - simpl. by rewrite app_nil_r.
  - cbn [factorize_from unique_from].
    destruct (is_na v) eqn:Ena.
    + assert (Hskip : forall seen',
        (forall w, is_na w = false ->
           cell_key w ∈ seen' <-> cell_key w ∈ map cell_key u) ->
        snd (let '(codes, u0) := factorize_from u vs in (-1 :: codes, u0))
        = u ++ filter (fun v => is_na v = false) (unique_from seen' vs)).
      { intros seen' H'. rewrite <- (IH u seen' H').
        by destruct (factorize_from u vs). }
      case_bool_decide.
      * by apply Hskip.
      * rewrite filter_cons.
        destruct (decide (is_na v = false)) as [Hd|_]; [congruence|].
        apply Hskip. intros w Hw. rewrite <- (Hinv w Hw).
        rewrite elem_of_cons. split; [|by right].
        intros [Heq|?]; [|done].
        apply cell_key_na in Ena. rewrite Ena in Heq.
        apply cell_key_na in Heq. congruence.
    + destruct (index_of u v) as [i|] eqn:Ei.
      * assert (Hin : cell_key v ∈ seen).
        { apply (Hinv v Ena), index_of_elem. by rewrite Ei. }
        rewrite (bool_decide_eq_true_2 _ Hin).
        rewrite <- (IH u seen Hinv). by destruct (factorize_from u vs).
      * assert (Hout : cell_key v ∉ seen).
        { intros Hin. apply (Hinv v Ena), index_of_elem in Hin.
          rewrite Ei in Hin. by destruct Hin. }
        rewrite (bool_decide_eq_false_2 _ Hout), filter_cons.
        destruct (decide (is_na v = false)) as [_|Hd]; [|congruence].
        transitivity (snd (factorize_from (u ++ [v]) vs));
          [by destruct (factorize_from (u ++ [v]) vs)|].
        rewrite (IH (u ++ [v]) (cell_key v :: seen)).
        -- by rewrite <- app_assoc.
        -- intros w Hw. rewrite map_app, elem_of_app, elem_of_cons.
           rewrite (Hinv w Hw). simpl. rewrite list_elem_of_singleton.
           tauto.
Qed.

Lemma factorize_nunique (vs : list cell) :
  length (snd (factorize vs)) = nunique vs.
Proof.
  unfold factorize, nunique, unique.
  by rewrite (factorize_from_unique vs [] []).
Qed.



End DistinctValues.
